(** * Kinegami geometry helpers: vectors, angles, circles and arcs in 3D

    A shallow embedding of [geometryHelpers.py], in two layers.

    The first layer reads numpy's float64 arrays of shape (3,) as triples of
    real numbers, and every arithmetic operation as the exact operation on
    reals: rounding, signed zeros, infinities and NaN are outside of it.  A
    division whose divisor is zero produces NaN in numpy (a warning, never an
    exception); no theorem of a claim below depends on the value of such a
    quotient.  This layer carries the properties that the code keeps up to
    rounding.

    The second layer, [B64] and the definitions with the suffix [64],
    follows the same source lines in IEEE 754 binary64 arithmetic (round to
    nearest, ties to even), for the places where rounding decides a branch
    or a sign: the test [norm(cp) > 0] of [unitNormalToBoth], the remainder
    of [wrapAngle], the quadrant of [signedAngle].

    The failing [assert] of Python is the [None] of an [option]. *)

From Stdlib Require Import QArith Qabs Qpower Qreals Reals Lra Lia List ZArith
  Psatz.
Import ListNotations.
Close Scope Q_scope.
Open Scope R_scope.

(** ** Vectors of shape (3,) *)

Record vec3 : Type := mkVec { vx : R; vy : R; vz : R }.

Definition vzero : vec3 := mkVec 0 0 0.

(** [a + b], [a - b], [- a], [s * a] and [a / s] of numpy, componentwise. *)
Definition vadd (a b : vec3) : vec3 :=
  mkVec (vx a + vx b) (vy a + vy b) (vz a + vz b).

Definition vsub (a b : vec3) : vec3 :=
  mkVec (vx a - vx b) (vy a - vy b) (vz a - vz b).

Definition vneg (a : vec3) : vec3 :=
  mkVec (- vx a) (- vy a) (- vz a).

Definition vscale (s : R) (a : vec3) : vec3 :=
  mkVec (s * vx a) (s * vy a) (s * vz a).

Definition vdiv (a : vec3) (s : R) : vec3 :=
  mkVec (vx a / s) (vy a / s) (vz a / s).

(** [numpy.dot], [numpy.cross] and [numpy.linalg.norm] on shape (3,). *)
Definition dot (a b : vec3) : R :=
  vx a * vx b + vy a * vy b + vz a * vz b.

Definition cross (a b : vec3) : vec3 :=
  mkVec (vy a * vz b - vz a * vy b)
        (vz a * vx b - vx a * vz b)
        (vx a * vy b - vy a * vx b).

Definition norm (a : vec3) : R :=
  sqrt (vx a * vx a + vy a * vy a + vz a * vz a).

(** ** Python's [%] on floats

    CPython computes [x % y] as the C [fmod] (the remainder of the
    quotient truncated towards zero, which has the sign of [x]) and then
    adds [y] when the remainder is nonzero and its sign differs from the
    sign of [y]. *)

Definition Ztrunc (x : R) : Z :=
  if Rle_dec 0 x then Zfloor x else (- Zfloor (- x))%Z.

Definition fmod (x y : R) : R := x - y * IZR (Ztrunc (x / y)).

Definition sign_differs (y m : R) : bool :=
  match Rlt_dec y 0, Rlt_dec m 0 with
  | left _, left _ => false
  | right _, right _ => false
  | _, _ => true
  end.

Definition float_rem (x y : R) : R :=
  let m := fmod x y in
  if Req_dec_T m 0 then m
  else if sign_differs y m then m + y else m.

(** [wrapAngle]: wrap angles to [0, 2pi). *)
Definition wrapAngle (angle : R) : R := float_rem angle (2 * PI).

(** ** [numpy.arctan2]

    The angle of the point [(x, y)] in (-pi, pi], by quadrant; at the
    origin the value is [0]. *)

Definition arctan2 (y x : R) : R :=
  if Rlt_dec 0 x then atan (y / x)
  else if Rlt_dec x 0 then
    (if Rle_dec 0 y then atan (y / x) + PI else atan (y / x) - PI)
  else if Rlt_dec 0 y then PI / 2
  else if Rlt_dec y 0 then - (PI / 2)
  else 0.

(** ** [numpy.linspace(start, stop, num)]

    [num] samples at the step [(stop - start) / (num - 1)]; the last of two
    or more samples is set to [stop] itself. *)

Definition linspace (start stop : R) (num : nat) : list R :=
  match num with
  | O => []
  | S O => [start]
  | S (S _ as div) =>
      map (fun i => start + INR i * ((stop - start) / INR div)) (seq 0 div)
        ++ [stop]
  end.

(** ** The helpers that use [scipy.linalg.null_space]

    [null_space u v] stands for [null_space(np.array([u, v]))]: the list
    of the columns of the matrix that scipy returns, an orthonormal basis of
    the null space of the 2x3 matrix of rows [u] and [v].  [column0] is the
    selection [[:,0]]; a matrix of rank at most 2 with 3 columns has a null
    space of dimension at least 1, so there is a column 0. *)

Definition column0 (basis : list vec3) : vec3 := nth 0 basis vzero.

Section WithNullSpace.

Variable null_space : vec3 -> vec3 -> list vec3.

(** Given 3D vectors [u] and [v], a unit vector orthogonal to both. *)
Definition unitNormalToBoth (u v : vec3) : vec3 :=
  let cp := cross u v in
  if Rlt_dec 0 (norm cp) then vdiv cp (norm cp)
  else column0 (null_space u v).

End WithNullSpace.

(** Signed angle (radians) from [a] to [b], around the normal [n]. *)
Definition signedAngle (a b n : vec3) : R :=
  let a := vdiv a (norm a) in
  let b := vdiv b (norm b) in
  let n := if Rlt_dec 0 (norm n) then vdiv n (norm n) else n in
  arctan2 (dot (cross a b) n) (dot a b).

(** ** [scipy.spatial.transform.Rotation]

    A rotation is kept as its rotation vector: its direction is the axis,
    its norm the angle, and the zero vector is the identity.  [apply] is the
    rotation of a vector about that axis by that angle, by the right-hand
    rule (the formula of Rodrigues). *)

Module Rotation.

Record t : Type := from_rotvec { as_rotvec : vec3 }.

Definition apply (rot : t) (x : vec3) : vec3 :=
  let angle := norm (as_rotvec rot) in
  if Rlt_dec 0 angle then
    let k := vdiv (as_rotvec rot) angle in
    vadd (vadd (vscale (cos angle) x) (vscale (sin angle) (cross k x)))
         (vscale (dot k x * (1 - cos angle)) k)
  else x.

End Rotation.

(** ** [Circle3D] *)

Module Circle3D.

Record t : Type := mk { r : R; c : vec3; n : vec3 }.

(** [__init__]: the only assertion is [norm(normal) > 0]. *)
Definition init (radius : R) (center normal : vec3) : option t :=
  if Rlt_dec 0 (norm normal) then
    Some (mk radius center (vdiv normal (norm normal)))
  else None.

(** One row of [self.c + u @ uhat + v @ vhat]. *)
Definition point (self : t) (uhat vhat : vec3) (angle : R) : vec3 :=
  vadd (vadd (c self) (vscale (r self * cos angle) uhat))
       (vscale (r self * sin angle) vhat).

Definition interpolate (null_space : vec3 -> vec3 -> list vec3)
    (self : t) (count : nat) : list vec3 :=
  let angle := linspace 0 (2 * PI) count in
  let uhat := unitNormalToBoth null_space (n self) (n self) in
  let vhat := cross (n self) uhat in
  map (point self uhat vhat) angle.

End Circle3D.

(** ** [Arc3D] *)

Module Arc3D.

Record t : Type := mk {
  circleCenter : vec3;
  startPoint : vec3;
  startTangent : vec3;
  theta : R;
  centerToStart : vec3;
  r : R;
  startNormal : vec3;
  binormal : vec3;
  rot : Rotation.t;
  centerToEnd : vec3;
  endPoint : vec3;
  endNormal : vec3;
  endTangent : vec3
}.

(** [__init__]: two assertions, then the derived fields in the order of
    the source. *)
Definition init (circleCenter startPoint startDir : vec3) (theta : R)
    : option t :=
  if Rlt_dec 0 (norm (vsub startPoint circleCenter)) then
    if Rlt_dec (Rabs (dot startDir (vsub startPoint circleCenter)))
               (1 / 1000000) then
      let startTangent := vdiv startDir (norm startDir) in
      let centerToStart := vsub startPoint circleCenter in
      let r := norm centerToStart in
      let startNormal := vdiv (vneg centerToStart) r in
      let binormal := cross startTangent startNormal in
      let rot := Rotation.from_rotvec (vscale theta binormal) in
      let centerToEnd := Rotation.apply rot centerToStart in
      let endPoint := vadd circleCenter centerToEnd in
      let endNormal := vdiv (vneg centerToEnd) r in
      let endTangent := cross endNormal binormal in
      Some (mk circleCenter startPoint startTangent theta centerToStart r
               startNormal binormal rot centerToEnd endPoint endNormal
               endTangent)
    else None
  else None.

(** One row of [self.circleCenter + u @ uhat + v @ vhat]. *)
Definition point (self : t) (uhat vhat : vec3) (angle : R) : vec3 :=
  vadd (vadd (circleCenter self) (vscale (r self * cos angle) uhat))
       (vscale (r self * sin angle) vhat).

Definition interpolate (self : t) (count : nat) : list vec3 :=
  let angle := linspace 0 (theta self) count in
  let uhat := vneg (startNormal self) in
  let vhat := cross (binormal self) uhat in
  map (point self uhat vhat) angle.

End Arc3D.

(** ** An instance of the null-space contract

    A unit vector orthogonal to [u] and [v], found without a decomposition:
    the normalized cross product when it is not zero, a vector orthogonal to
    whichever of [u] and [v] is not zero otherwise.  It shows that the
    contract assumed of [null_space] below can be met. *)

Definition perp (w : vec3) : vec3 :=
  if Req_dec_T (vx w) 0 then
    if Req_dec_T (vy w) 0 then mkVec 1 0 0 else mkVec (- vy w) (vx w) 0
  else mkVec (- vy w) (vx w) 0.

Definition some_normal (u v : vec3) : vec3 :=
  let cp := cross u v in
  if Rlt_dec 0 (norm cp) then vdiv cp (norm cp)
  else if Rlt_dec 0 (norm u) then vdiv (perp u) (norm (perp u))
  else if Rlt_dec 0 (norm v) then vdiv (perp v) (norm (perp v))
  else mkVec 1 0 0.

Definition null_space_instance (u v : vec3) : list vec3 := [some_normal u v].

(** * The binary64 layer

    ** IEEE 754 binary64 numbers

    A finite binary64 number is [mant * 2 ^ expo]; the sign of a zero is not
    kept.  Every operation computes the exact result and rounds it to the
    nearest number with at most 53 significant bits and an exponent of at
    least -1074, ties to even; it returns [None] where IEEE 754 returns an
    infinity or a NaN (overflow, division by zero, square root of a negative
    number). *)

Module B64.

Local Open Scope Z_scope.

Record t : Type := mk { mant : Z; expo : Z }.

Definition zero : t := mk 0 0.

(** The number of bits of [|n|]. *)
Definition digits (n : Z) : Z :=
  if n =? 0 then 0 else Z.log2 (Z.abs n) + 1.

(** [n / 2 ^ s] rounded to the nearest integer, ties to even, for [s > 0]. *)
Definition rne_shift (n s : Z) : Z :=
  let a := Z.abs n in
  let q := a / 2 ^ s in
  let r := a mod 2 ^ s in
  let half := 2 ^ (s - 1) in
  let up := (half <? r) || ((r =? half) && Z.odd q) in
  Z.sgn n * (if up then q + 1 else q).

(** The binary64 number nearest to [n * 2 ^ e]; [None] from [2 ^ 1024] on. *)
Definition round (n e : Z) : option t :=
  let target := Z.max (e + digits n - 53) (-1074) in
  let n' := if e <? target then rne_shift n (target - e) else n in
  let e' := if e <? target then target else e in
  if 1024 <? digits n' + e' then None else Some (mk n' e').

(** The binary64 number nearest to [sgn * (a / b) * 2 ^ e], for [a >= 0] and
    [b > 0]: a quotient of at least 56 bits and a sticky bit for the
    remainder, rounded. *)
Definition ratio (sgn a b e : Z) : option t :=
  let k := Z.max 0 (56 + digits b - digits a) in
  let q := (a * 2 ^ k) / b in
  let sticky := if (a * 2 ^ k) mod b =? 0 then 0 else 1 in
  round (sgn * (2 * q + sticky)) (e - k - 1).

(** The binary64 number that a decimal literal of value [a / b] denotes. *)
Definition nearest (a b : Z) : t :=
  match ratio (Z.sgn a) (Z.abs a) b 0 with
  | Some x => x
  | None => zero
  end.

(** The two mantissas at the smaller of the two exponents. *)
Definition aligned (x y : t) : Z * Z * Z :=
  let e := Z.min (expo x) (expo y) in
  (mant x * 2 ^ (expo x - e), mant y * 2 ^ (expo y - e), e).

Definition add (x y : t) : option t :=
  let '(a, b, e) := aligned x y in round (a + b) e.

Definition opp (x : t) : t := mk (- mant x) (expo x).

Definition sub (x y : t) : option t := add x (opp y).

Definition mul (x y : t) : option t :=
  round (mant x * mant y) (expo x + expo y).

Definition div (x y : t) : option t :=
  if mant y =? 0 then None
  else ratio (Z.sgn (mant x) * Z.sgn (mant y))
             (Z.abs (mant x)) (Z.abs (mant y)) (expo x - expo y).

Definition sqrt (x : t) : option t :=
  if mant x <? 0 then None
  else
    let k0 := Z.max 0 (110 - digits (mant x)) in
    let k := if Z.even (expo x - k0) then k0 else k0 + 1 in
    let n := mant x * 2 ^ k in
    let s := Z.sqrt n in
    let sticky := if s * s =? n then 0 else 1 in
    round (2 * s + sticky) ((expo x - k) / 2 - 1).

(** The C [fmod]: the remainder of the truncated quotient, which is exact
    and has the sign of [x]. *)
Definition fmod (x y : t) : option t :=
  if mant y =? 0 then None
  else let '(a, b, e) := aligned x y in round (Z.rem a b) e.

Definition ltb (x y : t) : bool :=
  let '(a, b, _) := aligned x y in a <? b.

Definition is_zero (x : t) : bool := mant x =? 0.

Definition is_neg (x : t) : bool := mant x <? 0.

(** The value, as a rational and as a real number. *)
Definition to_Q (x : t) : Q := (inject_Z (mant x) * 2 ^ expo x)%Q.

Definition to_R (x : t) : R := Q2R (to_Q x).

End B64.

(** ** The helpers in binary64

    [x <- a ;; b] continues with the finite result of [a], if there is one:
    an infinity or a NaN, once it has arisen, is all that this layer says of
    a computation. *)

Definition bind {A B : Type} (x : option A) (f : A -> option B) : option B :=
  match x with
  | Some a => f a
  | None => None
  end.

Notation "x <- a ;; b" := (bind a (fun x => b))
  (at level 61, a at next level, right associativity).

Record vec64 : Type := mkVec64 { x64 : B64.t; y64 : B64.t; z64 : B64.t }.

Definition vzero64 : vec64 := mkVec64 B64.zero B64.zero B64.zero.

(** [numpy.cross]: each component is a difference of two rounded products. *)
Definition cross64 (a b : vec64) : option vec64 :=
  p0 <- B64.mul (y64 a) (z64 b) ;;
  q0 <- B64.mul (z64 a) (y64 b) ;;
  c0 <- B64.sub p0 q0 ;;
  p1 <- B64.mul (z64 a) (x64 b) ;;
  q1 <- B64.mul (x64 a) (z64 b) ;;
  c1 <- B64.sub p1 q1 ;;
  p2 <- B64.mul (x64 a) (y64 b) ;;
  q2 <- B64.mul (y64 a) (x64 b) ;;
  c2 <- B64.sub p2 q2 ;;
  Some (mkVec64 c0 c1 c2).

(** [numpy.dot]: the three rounded products, summed from the first to the
    last, without fused multiply-add. *)
Definition dot64 (a b : vec64) : option B64.t :=
  p0 <- B64.mul (x64 a) (x64 b) ;;
  p1 <- B64.mul (y64 a) (y64 b) ;;
  p2 <- B64.mul (z64 a) (z64 b) ;;
  s1 <- B64.add p0 p1 ;;
  B64.add s1 p2.

(** [numpy.linalg.norm]: the square root of [x.dot(x)]. *)
Definition norm64 (a : vec64) : option B64.t :=
  d <- dot64 a a ;; B64.sqrt d.

Definition vdiv64 (a : vec64) (s : B64.t) : option vec64 :=
  c0 <- B64.div (x64 a) s ;;
  c1 <- B64.div (y64 a) s ;;
  c2 <- B64.div (z64 a) s ;;
  Some (mkVec64 c0 c1 c2).

(** The exact dot product of two binary64 vectors. *)
Definition dotQ (a b : vec64) : Q :=
  (B64.to_Q (x64 a) * B64.to_Q (x64 b) + B64.to_Q (y64 a) * B64.to_Q (y64 b)
   + B64.to_Q (z64 a) * B64.to_Q (z64 b))%Q.

(** [unitNormalToBoth] in binary64; [nth_error _ 0] is the selection
    [[:,0]] of the columns that [null_space] returns. *)
Definition unitNormalToBoth64 (null_space : vec64 -> vec64 -> list vec64)
    (u v : vec64) : option vec64 :=
  cp <- cross64 u v ;;
  nrm <- norm64 cp ;;
  if B64.ltb B64.zero nrm then vdiv64 cp nrm
  else nth_error (null_space u v) 0.

(** [a / norm(a)]. *)
Definition normalize64 (a : vec64) : option vec64 :=
  s <- norm64 a ;; vdiv64 a s.

(** The two arguments that [signedAngle] passes to [arctan2]. *)
Definition signedAngle64_args (a b n : vec64) : option (B64.t * B64.t) :=
  a' <- normalize64 a ;;
  b' <- normalize64 b ;;
  nn <- norm64 n ;;
  n' <- (if B64.ltb B64.zero nn then vdiv64 n nn else Some n) ;;
  c <- cross64 a' b' ;;
  y <- dot64 c n' ;;
  x <- dot64 a' b' ;;
  Some (y, x).

(** [signedAngle] in binary64, up to the rounding of the result of
    [arctan2], which is taken at the values of its two binary64 arguments. *)
Definition signedAngle64 (a b n : vec64) : option R :=
  p <- signedAngle64_args a b n ;;
  Some (arctan2 (B64.to_R (fst p)) (B64.to_R (snd p))).

(** [np.pi], the binary64 number nearest to pi, and the literal [2]. *)
Definition pi64 : B64.t := B64.mk 884279719003555 (-48).

Definition two64 : B64.t := B64.mk 2 0.

(** Python's [%] on binary64: [fmod], then the divisor is added, with one
    rounding, when the remainder is not zero and its sign is not the sign of
    the divisor. *)
Definition float_rem64 (x y : B64.t) : option B64.t :=
  m <- B64.fmod x y ;;
  if B64.is_zero m then Some m
  else if negb (Bool.eqb (B64.is_neg y) (B64.is_neg m)) then B64.add m y
  else Some m.

(** [wrapAngle] in binary64: [angle % (2*np.pi)]. *)
Definition wrapAngle64 (angle : B64.t) : option B64.t :=
  tp <- B64.mul two64 pi64 ;; float_rem64 angle tp.

(** ** Facts on the remainder *)

Lemma Ztrunc_bounds_nonneg (x : R) :
  0 <= x -> IZR (Ztrunc x) <= x < IZR (Ztrunc x) + 1.
Proof.
  intros Hx. unfold Ztrunc. destruct (Rle_dec 0 x); [|contradiction].
  apply Zfloor_bound.
Qed.

Lemma Ztrunc_bounds_neg (x : R) :
  x < 0 -> x <= IZR (Ztrunc x) < x + 1.
Proof.
  intros Hx. unfold Ztrunc. destruct (Rle_dec 0 x); [lra|].
  rewrite opp_IZR. pose proof (Zfloor_bound (- x)). lra.
Qed.

(** The truncated remainder by a positive divisor: it has the sign of the
    dividend and is smaller than the divisor in absolute value. *)
Lemma fmod_nonneg (x y : R) :
  0 < y -> 0 <= x -> 0 <= fmod x y < y.
Proof.
  intros Hy Hx. unfold fmod.
  assert (Hq : 0 <= x / y).
  { apply Rmult_le_pos; [assumption|]. left. now apply Rinv_0_lt_compat. }
  pose proof (Ztrunc_bounds_nonneg _ Hq) as [H1 H2].
  assert (Hxy : x = y * (x / y)) by (field; lra).
  set (k := IZR (Ztrunc (x / y))) in *.
  split; nra.
Qed.

Lemma fmod_neg (x y : R) :
  0 < y -> x < 0 -> - y < fmod x y <= 0.
Proof.
  intros Hy Hx. unfold fmod.
  assert (Hq : x / y < 0).
  { unfold Rdiv. rewrite <- (Rmult_0_l (/ y)).
    apply Rmult_lt_compat_r; [now apply Rinv_0_lt_compat | assumption]. }
  pose proof (Ztrunc_bounds_neg _ Hq) as [H1 H2].
  assert (Hxy : x = y * (x / y)) by (field; lra).
  set (k := IZR (Ztrunc (x / y))) in *.
  split; nra.
Qed.

(** The remainder is the dividend minus an integer multiple of the divisor. *)
Lemma float_rem_shift (x y : R) :
  0 < y -> exists k : Z, float_rem x y = x - y * IZR k.
Proof.
  intros Hy. unfold float_rem.
  destruct (Req_dec_T (fmod x y) 0) as [E|NE].
  - exists (Ztrunc (x / y)). reflexivity.
  - destruct (sign_differs y (fmod x y)).
    + exists (Ztrunc (x / y) - 1)%Z. unfold fmod. rewrite minus_IZR. ring.
    + exists (Ztrunc (x / y)). reflexivity.
Qed.

Lemma float_rem_range (x y : R) :
  0 < y -> 0 <= float_rem x y < y.
Proof.
  intros Hy. unfold float_rem.
  destruct (Req_dec_T (fmod x y) 0) as [E|NE].
  - rewrite E. lra.
  - unfold sign_differs.
    destruct (Rlt_dec y 0) as [?|_]; [lra|].
    destruct (Rle_or_lt 0 x) as [Hx|Hx].
    + pose proof (fmod_nonneg x y Hy Hx).
      destruct (Rlt_dec (fmod x y) 0); lra.
    + pose proof (fmod_neg x y Hy Hx).
      destruct (Rlt_dec (fmod x y) 0); lra.
Qed.

(** Two reals of [0, y) that differ by an integer multiple of [y] are equal. *)
Lemma range_shift_unique (y a b : R) (k : Z) :
  0 < y -> 0 <= a < y -> 0 <= b < y -> a = b + y * IZR k -> a = b.
Proof.
  intros Hy Ha Hb E.
  assert (Hk : (k = 0)%Z).
  { assert (H1 : (-1 < k)%Z).
    { apply lt_IZR. nra. }
    assert (H2 : (k < 1)%Z).
    { apply lt_IZR. nra. }
    lia. }
  subst k. lra.
Qed.

Lemma float_rem_floor (x y : R) :
  0 < y -> float_rem x y = x - y * IZR (Zfloor (x / y)).
Proof.
  intros Hy.
  destruct (float_rem_shift x y Hy) as [k Hk].
  pose proof (float_rem_range x y Hy) as Hr.
  pose proof (Zfloor_bound (x / y)) as Hf.
  assert (Hxy : x = y * (x / y)) by (field; lra).
  assert (Hin : 0 <= x - y * IZR (Zfloor (x / y)) < y).
  { set (f := IZR (Zfloor (x / y))) in *. split; nra. }
  apply (range_shift_unique y _ _ (Zfloor (x / y) - k)%Z Hy Hr Hin).
  rewrite Hk, minus_IZR. ring.
Qed.

Lemma float_rem_periodic (x y : R) (k : Z) :
  0 < y -> float_rem (x + y * IZR k) y = float_rem x y.
Proof.
  intros Hy.
  destruct (float_rem_shift x y Hy) as [k1 Hk1].
  destruct (float_rem_shift (x + y * IZR k) y Hy) as [k2 Hk2].
  apply (range_shift_unique y _ _ (k + k1 - k2)%Z Hy);
    try (apply float_rem_range; assumption).
  rewrite Hk1, Hk2, minus_IZR, plus_IZR. ring.
Qed.

(** Exact arithmetic only: for every real angle [x], [wrapAngle x] lies
    in [0, 2pi); the remainder is the mathematical (floored) one, so that an
    input in (-2pi, 0) is moved forward by one turn and no result is
    negative; and [wrapAngle] takes the same value at [x] and at
    [x + 2pi * k] for every integer [k].  In binary64 the addition of the
    divisor is rounded, and the range and the periodicity are lost: see
    [wrapAngle64_tiny_negative]. *)
Lemma wrapAngle_exact_range_floored_periodic :
  (forall x, 0 <= wrapAngle x < 2 * PI) /\
  (forall x, wrapAngle x = x - 2 * PI * IZR (Zfloor (x / (2 * PI)))) /\
  (forall x, - (2 * PI) < x < 0 -> wrapAngle x = x + 2 * PI) /\
  (forall x (k : Z), wrapAngle (x + 2 * PI * IZR k) = wrapAngle x).
Proof.
  assert (H2pi : 0 < 2 * PI) by (pose proof PI_RGT_0; lra).
  repeat split.
  - apply float_rem_range; assumption.
  - apply float_rem_range; assumption.
  - intros x. apply float_rem_floor; assumption.
  - intros x [Hl Hu]. unfold wrapAngle.
    rewrite (float_rem_floor _ _ H2pi).
    assert (Hf : Zfloor (x / (2 * PI)) = (-1)%Z).
    { apply Zfloor_eq.
      assert (Hxy : x = 2 * PI * (x / (2 * PI))) by (field; lra).
      set (q := x / (2 * PI)) in *. split; simpl; nra. }
    rewrite Hf. simpl. lra.
  - intros x k. apply float_rem_periodic; assumption.
Qed.

(** ** Facts on vectors *)

Lemma vec3_eq (a b : vec3) :
  vx a = vx b -> vy a = vy b -> vz a = vz b -> a = b.
Proof. destruct a, b; simpl; intros; subst; reflexivity. Qed.

Lemma vec3_eq_dec (a b : vec3) : {a = b} + {a <> b}.
Proof.
  destruct a as [ax ay az], b as [bx by' bz].
  destruct (Req_dec_T ax bx) as [Ex|Nx];
    [|right; intros E; injection E; intros; contradiction].
  destruct (Req_dec_T ay by') as [Ey|Ny];
    [|right; intros E; injection E; intros; contradiction].
  destruct (Req_dec_T az bz) as [Ez|Nz];
    [|right; intros E; injection E; intros; contradiction].
  left. subst. reflexivity.
Qed.

Lemma sumsq_nonneg (a : vec3) : 0 <= vx a * vx a + vy a * vy a + vz a * vz a.
Proof. nra. Qed.

Lemma norm_nonneg (a : vec3) : 0 <= norm a.
Proof. apply sqrt_pos. Qed.

Lemma norm_sqr (a : vec3) : norm a * norm a = dot a a.
Proof. unfold norm, dot. apply sqrt_sqrt, sumsq_nonneg. Qed.

Lemma norm_of_square (a : vec3) (s : R) :
  0 <= s -> dot a a = s * s -> norm a = s.
Proof.
  intros Hs E. unfold norm. fold (dot a a). rewrite E.
  apply sqrt_square; assumption.
Qed.

Lemma norm_unit (a : vec3) : dot a a = 1 -> norm a = 1.
Proof. intros E. apply norm_of_square; lra. Qed.

Lemma norm_pos_dot (a : vec3) : 0 < norm a <-> 0 < dot a a.
Proof.
  pose proof (norm_sqr a) as E. pose proof (norm_nonneg a) as H.
  split; intros; nra.
Qed.

Lemma norm_not_pos (a : vec3) :
  ~ 0 < norm a -> vx a = 0 /\ vy a = 0 /\ vz a = 0.
Proof.
  intros H.
  assert (E : dot a a <= 0).
  { destruct (Rle_or_lt (dot a a) 0); [assumption|].
    exfalso. apply H, norm_pos_dot. assumption. }
  unfold dot in E. repeat split; nra.
Qed.

Lemma norm_pos_neq (a b : vec3) : 0 < norm (vsub a b) <-> a <> b.
Proof.
  split.
  - intros H E. subst b. apply norm_pos_dot in H.
    unfold dot, vsub in H. simpl in H. nra.
  - intros NE. destruct (Rlt_dec 0 (norm (vsub a b))) as [?|H]; [assumption|].
    exfalso. apply NE. apply norm_not_pos in H. simpl in H.
    destruct H as (H1 & H2 & H3). apply vec3_eq; lra.
Qed.

Lemma norm_vscale (s : R) (a : vec3) : norm (vscale s a) = Rabs s * norm a.
Proof.
  unfold norm, vscale. simpl.
  replace (s * vx a * (s * vx a) + s * vy a * (s * vy a) + s * vz a * (s * vz a))
    with (Rsqr s * (vx a * vx a + vy a * vy a + vz a * vz a))
    by (unfold Rsqr; ring).
  rewrite sqrt_mult; [| apply Rle_0_sqr | apply sumsq_nonneg].
  rewrite sqrt_Rsqr_abs. reflexivity.
Qed.

Lemma vdiv_vscale (a : vec3) (s : R) : vdiv a s = vscale (/ s) a.
Proof. apply vec3_eq; simpl; unfold Rdiv; ring. Qed.

(** Dividing a vector by its positive norm gives a unit vector. *)
Lemma norm_vdiv_self (a : vec3) : 0 < norm a -> norm (vdiv a (norm a)) = 1.
Proof.
  intros H. rewrite vdiv_vscale, norm_vscale.
  rewrite Rabs_right; [field; lra|].
  left. now apply Rinv_0_lt_compat.
Qed.

Lemma vdiv_one (a : vec3) : vdiv a 1 = a.
Proof. apply vec3_eq; simpl; field. Qed.

Lemma dot_comm (a b : vec3) : dot a b = dot b a.
Proof. unfold dot. ring. Qed.

Lemma dot_vdiv_l (a b : vec3) (s : R) : dot (vdiv a s) b = dot a b / s.
Proof. unfold dot, vdiv, Rdiv. simpl. ring. Qed.

Lemma dot_vdiv_r (a b : vec3) (s : R) : dot a (vdiv b s) = dot a b / s.
Proof. unfold dot, vdiv, Rdiv. simpl. ring. Qed.

Lemma dot_cross_l (a b : vec3) : dot (cross a b) a = 0.
Proof. unfold dot, cross. simpl. ring. Qed.

Lemma dot_cross_r (a b : vec3) : dot (cross a b) b = 0.
Proof. unfold dot, cross. simpl. ring. Qed.

Lemma cross_self (a : vec3) : cross a a = vzero.
Proof. apply vec3_eq; simpl; ring. Qed.

Lemma cross_anticomm (a b : vec3) : cross b a = vneg (cross a b).
Proof. apply vec3_eq; simpl; ring. Qed.

Lemma norm_vzero : norm vzero = 0.
Proof.
  unfold norm, vzero. simpl.
  replace (0 * 0 + 0 * 0 + 0 * 0) with 0 by ring. apply sqrt_0.
Qed.

(** The identity of Lagrange. *)
Lemma dot_cross_cross (a b : vec3) :
  dot (cross a b) (cross a b) = dot a a * dot b b - dot a b * dot a b.
Proof. unfold dot, cross. simpl. ring. Qed.

Lemma norm_cross_orthonormal (a b : vec3) :
  norm a = 1 -> norm b = 1 -> dot a b = 0 -> norm (cross a b) = 1.
Proof.
  intros Ha Hb Hab. apply norm_unit. rewrite dot_cross_cross, Hab.
  rewrite <- !norm_sqr, Ha, Hb. ring.
Qed.

(** ** The instance meets the contract *)

Lemma perp_orthogonal (w : vec3) : dot (perp w) w = 0.
Proof.
  unfold perp.
  destruct (Req_dec_T (vx w) 0) as [Ex|Nx];
    [destruct (Req_dec_T (vy w) 0) as [Ey|Ny]|];
    unfold dot; simpl; try rewrite Ex; ring.
Qed.

Lemma sqr_pos (x : R) : x <> 0 -> 0 < x * x.
Proof. intros H. destruct (Rtotal_order x 0) as [?|[?|?]]; [nra|contradiction|nra]. Qed.

Lemma perp_norm_pos (w : vec3) : 0 < norm (perp w).
Proof.
  apply norm_pos_dot. unfold perp.
  destruct (Req_dec_T (vx w) 0) as [Ex|Nx];
    [destruct (Req_dec_T (vy w) 0) as [Ey|Ny]|];
    unfold dot; simpl.
  - lra.
  - pose proof (sqr_pos _ Ny). nra.
  - pose proof (sqr_pos _ Nx). nra.
Qed.

(** When [u] is not zero and [cross u v] is, [perp u] is orthogonal to [v]
    as well. *)
Lemma perp_orthogonal_colinear (u v : vec3) :
  ~ 0 < norm (cross u v) -> 0 < norm u -> dot (perp u) v = 0.
Proof.
  intros Hc Hu. apply norm_not_pos in Hc. simpl in Hc.
  destruct Hc as (C1 & C2 & C3).
  apply norm_pos_dot in Hu. unfold dot in Hu.
  unfold perp.
  destruct (Req_dec_T (vx u) 0) as [Ex|Nx];
    [destruct (Req_dec_T (vy u) 0) as [Ey|Ny]|];
    unfold dot; simpl.
  - rewrite Ex, Ey in *.
    assert (Hz : vz u <> 0) by (intros E; rewrite E in Hu; lra).
    assert (E : vz u * vx v = 0) by lra.
    apply Rmult_integral in E. destruct E as [E|E]; [contradiction|].
    rewrite E. ring.
  - lra.
  - lra.
Qed.

Lemma some_normal_contract (u v : vec3) :
  norm (some_normal u v) = 1 /\
  dot (some_normal u v) u = 0 /\ dot (some_normal u v) v = 0.
Proof.
  unfold some_normal.
  destruct (Rlt_dec 0 (norm (cross u v))) as [Hc|Hc].
  - repeat split.
    + apply norm_vdiv_self; assumption.
    + rewrite dot_vdiv_l, dot_cross_l. unfold Rdiv. ring.
    + rewrite dot_vdiv_l, dot_cross_r. unfold Rdiv. ring.
  - destruct (Rlt_dec 0 (norm u)) as [Hu|Hu].
    + repeat split.
      * apply norm_vdiv_self, perp_norm_pos.
      * rewrite dot_vdiv_l, perp_orthogonal. unfold Rdiv. ring.
      * rewrite dot_vdiv_l, (perp_orthogonal_colinear u v Hc Hu).
        unfold Rdiv. ring.
    + apply norm_not_pos in Hu. destruct Hu as (U1 & U2 & U3).
      destruct (Rlt_dec 0 (norm v)) as [Hv|Hv].
      * repeat split.
        -- apply norm_vdiv_self, perp_norm_pos.
        -- rewrite dot_vdiv_l. unfold dot at 1. rewrite U1, U2, U3.
           unfold Rdiv. ring.
        -- rewrite dot_vdiv_l, perp_orthogonal. unfold Rdiv. ring.
      * apply norm_not_pos in Hv. destruct Hv as (V1 & V2 & V3).
        repeat split.
        -- apply norm_unit. unfold dot. simpl. ring.
        -- unfold dot. simpl. rewrite U1, U2, U3. ring.
        -- unfold dot. simpl. rewrite V1, V2, V3. ring.
Qed.

Lemma null_space_instance_nonempty (u v : vec3) : null_space_instance u v <> [].
Proof. discriminate. Qed.

Lemma null_space_instance_orthonormal (u v w : vec3) :
  In w (null_space_instance u v) ->
  norm w = 1 /\ dot w u = 0 /\ dot w v = 0.
Proof.
  intros [E|[]]. subst w. apply some_normal_contract.
Qed.

(** ** The contract of [null_space], and [unitNormalToBoth] under it *)

Section NullSpaceContract.

Variable null_space : vec3 -> vec3 -> list vec3.

(** A 2x3 matrix has a null space of dimension at least 1. *)
Hypothesis null_space_nonempty : forall u v, null_space u v <> [].

(** Every column returned has unit length and is orthogonal to both rows. *)
Hypothesis null_space_orthonormal :
  forall u v w, In w (null_space u v) ->
    norm w = 1 /\ dot w u = 0 /\ dot w v = 0.

Lemma column0_contract (u v : vec3) :
  norm (column0 (null_space u v)) = 1 /\
  dot (column0 (null_space u v)) u = 0 /\
  dot (column0 (null_space u v)) v = 0.
Proof.
  apply null_space_orthonormal. unfold column0.
  pose proof (null_space_nonempty u v) as NE.
  destruct (null_space u v) as [|w ws]; [contradiction|]. now left.
Qed.

Lemma unitNormalToBoth_contract (u v : vec3) :
  norm (unitNormalToBoth null_space u v) = 1 /\
  dot (unitNormalToBoth null_space u v) u = 0 /\
  dot (unitNormalToBoth null_space u v) v = 0.
Proof.
  unfold unitNormalToBoth.
  destruct (Rlt_dec 0 (norm (cross u v))) as [Hc|Hc].
  - repeat split.
    + apply norm_vdiv_self; assumption.
    + rewrite dot_vdiv_l, dot_cross_l. unfold Rdiv. ring.
    + rewrite dot_vdiv_l, dot_cross_r. unfold Rdiv. ring.
  - apply column0_contract.
Qed.

(** Exact arithmetic only: for every pair of vectors [u], [v], zero or
    not, the result of [unitNormalToBoth u v] has unit length and is
    orthogonal to [u] and to [v]; and whenever the cross product of [u] and
    [v] has nonzero length the result is that cross product divided by its
    length.  In binary64 the cross product of nearly colinear vectors is
    rounding error, and the result is not orthogonal to them: see
    [unitNormalToBoth64_nearly_colinear]. *)
Lemma unitNormalToBoth_exact_unit_orthogonal (u v : vec3) :
  norm (unitNormalToBoth null_space u v) = 1 /\
  dot (unitNormalToBoth null_space u v) u = 0 /\
  dot (unitNormalToBoth null_space u v) v = 0 /\
  (norm (cross u v) <> 0 ->
   unitNormalToBoth null_space u v = vdiv (cross u v) (norm (cross u v))).
Proof.
  destruct (unitNormalToBoth_contract u v) as (H1 & H2 & H3).
  repeat split; try assumption.
  intros NZ. unfold unitNormalToBoth.
  destruct (Rlt_dec 0 (norm (cross u v))) as [Hc|Hc]; [reflexivity|].
  exfalso. pose proof (norm_nonneg (cross u v)). lra.
Qed.

(** ** Facts on [linspace] *)

Lemma linspace_length (a b : R) (num : nat) : length (linspace a b num) = num.
Proof.
  destruct num as [|[|k]]; simpl; try reflexivity.
  rewrite length_app, length_map, length_seq. simpl. lia.
Qed.

Lemma nth_map_in {A B : Type} (f : A -> B) (l : list A) (i : nat)
    (dA : A) (dB : B) :
  (i < length l)%nat -> nth i (map f l) dB = f (nth i l dA).
Proof.
  intros Hi. rewrite (nth_indep (map f l) dB (f dA)).
  - apply map_nth.
  - rewrite length_map. assumption.
Qed.

Lemma linspace_nth (a b : R) (num i : nat) (d : R) :
  (2 <= num)%nat -> (i < num)%nat ->
  nth i (linspace a b num) d = a + INR i * ((b - a) / INR (num - 1)).
Proof.
  intros Hn Hi. destruct num as [|[|k]]; try lia.
  replace (S (S k) - 1)%nat with (S k) by lia.
  assert (Hk : INR (S k) <> 0) by (apply not_0_INR; lia).
  unfold linspace.
  set (f := fun j : nat => a + INR j * ((b - a) / INR (S k))).
  destruct (Nat.eq_dec i (S k)) as [E|NE].
  - subst i. rewrite app_nth2; rewrite length_map, length_seq; [|lia].
    rewrite Nat.sub_diag. simpl nth. field. assumption.
  - rewrite app_nth1 by (rewrite length_map, length_seq; lia).
    rewrite (nth_map_in f _ i 0%nat) by (rewrite length_seq; lia).
    rewrite seq_nth by lia. reflexivity.
Qed.

Lemma linspace_first (a b : R) (num : nat) (d : R) :
  (1 <= num)%nat -> nth 0 (linspace a b num) d = a.
Proof.
  intros Hn. destruct num as [|[|k]]; try lia; [reflexivity|].
  rewrite linspace_nth by lia. simpl INR at 1. ring.
Qed.

Lemma linspace_last (a b : R) (num : nat) (d : R) :
  (2 <= num)%nat -> nth (num - 1) (linspace a b num) d = b.
Proof.
  intros Hn. rewrite linspace_nth by lia.
  assert (Hk : INR (num - 1) <> 0) by (apply not_0_INR; lia).
  field. assumption.
Qed.

(** ** The points of a circle *)

Lemma dot_lincomb_self (x y : R) (u v : vec3) :
  dot (vadd (vscale x u) (vscale y v)) (vadd (vscale x u) (vscale y v))
  = x * x * dot u u + 2 * (x * y) * dot u v + y * y * dot v v.
Proof. unfold dot, vadd, vscale. simpl. ring. Qed.

Lemma dot_lincomb_l (x y : R) (u v w : vec3) :
  dot (vadd (vscale x u) (vscale y v)) w = x * dot u w + y * dot v w.
Proof. unfold dot, vadd, vscale. simpl. ring. Qed.

(** A combination [x * u + y * v] of two orthonormal vectors has length
    [sqrt (x^2 + y^2)]; with [x = r cos a] and [y = r sin a] this is [|r|]. *)
Lemma norm_circle_combination (rad a : R) (u v : vec3) :
  dot u u = 1 -> dot v v = 1 -> dot u v = 0 ->
  norm (vadd (vscale (rad * cos a) u) (vscale (rad * sin a) v)) = Rabs rad.
Proof.
  intros Hu Hv Huv. apply norm_of_square; [apply Rabs_pos|].
  rewrite dot_lincomb_self, Hu, Hv, Huv.
  pose proof (sin2_cos2 a) as Hsc. unfold Rsqr in Hsc.
  replace (Rabs rad * Rabs rad) with (rad * rad)
    by (unfold Rabs; destruct (Rcase_abs rad); ring).
  nra.
Qed.

Lemma Circle3D_point_offset (self : Circle3D.t) (uhat vhat : vec3) (a : R) :
  vsub (Circle3D.point self uhat vhat a) (Circle3D.c self)
  = vadd (vscale (Circle3D.r self * cos a) uhat)
         (vscale (Circle3D.r self * sin a) vhat).
Proof. apply vec3_eq; simpl; ring. Qed.

(** With a unit normal and a unit [uhat] orthogonal to it, every point of
    the parametrization is at distance [|r|] of the center, in the plane
    through the center that the normal defines. *)
Lemma Circle3D_point_geometry (self : Circle3D.t) (uhat : vec3) (a : R) :
  norm (Circle3D.n self) = 1 -> norm uhat = 1 ->
  dot uhat (Circle3D.n self) = 0 ->
  let p := Circle3D.point self uhat (cross (Circle3D.n self) uhat) a in
  norm (vsub p (Circle3D.c self)) = Rabs (Circle3D.r self) /\
  dot (vsub p (Circle3D.c self)) (Circle3D.n self) = 0.
Proof.
  intros Hn Hu Hun p. unfold p. rewrite Circle3D_point_offset.
  assert (Huu : dot uhat uhat = 1) by (rewrite <- norm_sqr, Hu; ring).
  assert (Hnn : dot (Circle3D.n self) (Circle3D.n self) = 1)
    by (rewrite <- norm_sqr, Hn; ring).
  split.
  - apply norm_circle_combination.
    + assumption.
    + rewrite dot_cross_cross, Hnn, Huu, (dot_comm (Circle3D.n self)), Hun.
      ring.
    + rewrite dot_comm. apply dot_cross_r.
  - rewrite dot_lincomb_l, Hun, dot_cross_l. ring.
Qed.

Lemma Circle3D_init_some (radius : R) (center normal : vec3) :
  norm normal <> 0 ->
  Circle3D.init radius center normal
  = Some (Circle3D.mk radius center (vdiv normal (norm normal))).
Proof.
  intros NZ. unfold Circle3D.init.
  destruct (Rlt_dec 0 (norm normal)) as [H|H]; [reflexivity|].
  exfalso. pose proof (norm_nonneg normal). lra.
Qed.

Lemma Circle3D_init_none (radius : R) (center normal : vec3) :
  norm normal = 0 -> Circle3D.init radius center normal = None.
Proof.
  intros Z. unfold Circle3D.init.
  destruct (Rlt_dec 0 (norm normal)) as [H|H]; [lra|reflexivity].
Qed.

Lemma dot_vdiv_norm_zero (p normal : vec3) :
  norm normal <> 0 -> dot p (vdiv normal (norm normal)) = 0 ->
  dot p normal = 0.
Proof.
  intros NZ H. rewrite dot_vdiv_r in H.
  replace (dot p normal) with (dot p normal / norm normal * norm normal)
    by (field; assumption).
  rewrite H. ring.
Qed.

Lemma Rabs_sqr (x : R) : Rabs x * Rabs x = x * x.
Proof. unfold Rabs. destruct (Rcase_abs x); ring. Qed.

Lemma norm_axis_x (x : R) : norm (mkVec x 0 0) = Rabs x.
Proof.
  apply norm_of_square; [apply Rabs_pos|].
  rewrite Rabs_sqr. unfold dot. simpl. ring.
Qed.

Lemma norm_axis_y (y : R) : norm (mkVec 0 y 0) = Rabs y.
Proof.
  apply norm_of_square; [apply Rabs_pos|].
  rewrite Rabs_sqr. unfold dot. simpl. ring.
Qed.

Lemma norm_axis_z (z : R) : norm (mkVec 0 0 z) = Rabs z.
Proof.
  apply norm_of_square; [apply Rabs_pos|].
  rewrite Rabs_sqr. unfold dot. simpl. ring.
Qed.

(** ** [Circle3D] under the contract of [null_space] *)

Lemma Circle3D_samples_geometry (self : Circle3D.t) (count : nat) (p : vec3) :
  norm (Circle3D.n self) = 1 ->
  In p (Circle3D.interpolate null_space self count) ->
  norm (vsub p (Circle3D.c self)) = Rabs (Circle3D.r self) /\
  dot (vsub p (Circle3D.c self)) (Circle3D.n self) = 0.
Proof.
  intros Hn Hp. unfold Circle3D.interpolate in Hp.
  apply in_map_iff in Hp. destruct Hp as (a & <- & _).
  destruct (unitNormalToBoth_contract (Circle3D.n self) (Circle3D.n self))
    as (H1 & H2 & _).
  apply Circle3D_point_geometry; assumption.
Qed.

Lemma Circle3D_samples_closed (self : Circle3D.t) (count : nat) (d : vec3) :
  (2 <= count)%nat ->
  nth 0 (Circle3D.interpolate null_space self count) d
  = nth (count - 1) (Circle3D.interpolate null_space self count) d.
Proof.
  intros Hc. unfold Circle3D.interpolate.
  rewrite !(nth_map_in _ _ _ 0) by (rewrite linspace_length; lia).
  rewrite linspace_first by lia. rewrite linspace_last by lia.
  unfold Circle3D.point. rewrite cos_2PI, sin_2PI, cos_0, sin_0. reflexivity.
Qed.

(** C6, as amended: for every [Circle3D] constructed with a normal of
    nonzero length and every point [p] returned by [interpolate count], the
    distance from [p] to the center is [|r|] (hence the radius [r] itself
    when [r] is not negative), [p] lies in the plane through the center with
    the given normal, and the first and last samples coincide when
    [count >= 2]. *)
Theorem Circle3D_samples_on_circle
    (radius : R) (center normal : vec3) (count : nat) :
  norm normal <> 0 ->
  exists circ,
    Circle3D.init radius center normal = Some circ /\
    (forall p, In p (Circle3D.interpolate null_space circ count) ->
       norm (vsub p center) = Rabs radius /\
       (0 <= radius -> norm (vsub p center) = radius) /\
       dot (vsub p center) normal = 0) /\
    ((2 <= count)%nat -> forall d,
       nth 0 (Circle3D.interpolate null_space circ count) d
       = nth (count - 1) (Circle3D.interpolate null_space circ count) d).
Proof.
  intros NZ. eexists. split; [apply Circle3D_init_some; assumption|].
  split.
  - intros p Hp.
    apply Circle3D_samples_geometry in Hp;
      [|simpl; apply norm_vdiv_self; pose proof (norm_nonneg normal); lra].
    simpl in Hp. destruct Hp as [Hd Hpl]. repeat split.
    + assumption.
    + intros Hr. rewrite Hd. apply Rabs_right. lra.
    + apply dot_vdiv_norm_zero; assumption.
  - intros Hc d. apply Circle3D_samples_closed. assumption.
Qed.

(** C10: the constructor of [Circle3D] validates only the normal: it fails
    exactly when the normal has length zero; for every radius, zero and
    negative ones included, construction with a normal of nonzero length
    succeeds, the stored normal has unit length, and [interpolate count]
    returns [count] points, each at distance [|r|] of the center. *)
Theorem Circle3D_init_any_radius
    (radius : R) (center normal : vec3) (count : nat) :
  (Circle3D.init radius center normal = None <-> norm normal = 0) /\
  (norm normal <> 0 ->
   exists circ,
     Circle3D.init radius center normal = Some circ /\
     norm (Circle3D.n circ) = 1 /\
     length (Circle3D.interpolate null_space circ count) = count /\
     forall p, In p (Circle3D.interpolate null_space circ count) ->
       norm (vsub p center) = Rabs radius).
Proof.
  split.
  - split.
    + intros HN. destruct (Req_dec_T (norm normal) 0) as [E|NE]; [assumption|].
      rewrite (Circle3D_init_some _ _ _ NE) in HN. discriminate.
    + apply Circle3D_init_none.
  - intros NZ. eexists. split; [apply Circle3D_init_some; assumption|].
    assert (Hn : norm (vdiv normal (norm normal)) = 1)
      by (apply norm_vdiv_self; pose proof (norm_nonneg normal); lra).
    repeat split.
    + exact Hn.
    + unfold Circle3D.interpolate. rewrite length_map. apply linspace_length.
    + intros p Hp. apply Circle3D_samples_geometry in Hp; [|exact Hn].
      apply Hp.
Qed.

End NullSpaceContract.


Lemma norm_002 : norm (mkVec 0 0 2) <> 0.
Proof. rewrite norm_axis_z, Rabs_right; lra. Qed.

(** The circle of radius 2 about the origin with normal (0,0,2), 4 samples. *)
Lemma Circle3D_samples_on_circle_witness :
  exists circ,
    Circle3D.init 2 vzero (mkVec 0 0 2) = Some circ /\
    (forall p, In p (Circle3D.interpolate null_space_instance circ 4) ->
       norm (vsub p vzero) = Rabs 2 /\
       (0 <= 2 -> norm (vsub p vzero) = 2) /\
       dot (vsub p vzero) (mkVec 0 0 2) = 0) /\
    ((2 <= 4)%nat -> forall d,
       nth 0 (Circle3D.interpolate null_space_instance circ 4) d
       = nth (4 - 1) (Circle3D.interpolate null_space_instance circ 4) d).
Proof.
  exact (Circle3D_samples_on_circle null_space_instance
           null_space_instance_nonempty null_space_instance_orthonormal
           2 vzero (mkVec 0 0 2) 4 norm_002).
Defined.

(** A negative radius, -3, with the same normal, 5 samples. *)
Lemma Circle3D_init_any_radius_witness :
  (Circle3D.init (-3) vzero (mkVec 0 0 2) = None <-> norm (mkVec 0 0 2) = 0) /\
  exists circ,
    Circle3D.init (-3) vzero (mkVec 0 0 2) = Some circ /\
    norm (Circle3D.n circ) = 1 /\
    length (Circle3D.interpolate null_space_instance circ 5) = 5%nat /\
    forall p, In p (Circle3D.interpolate null_space_instance circ 5) ->
      norm (vsub p vzero) = Rabs (-3).
Proof.
  destruct (Circle3D_init_any_radius null_space_instance
              null_space_instance_nonempty null_space_instance_orthonormal
              (-3) vzero (mkVec 0 0 2) 5) as [H1 H2].
  split; [exact H1 | exact (H2 norm_002)].
Defined.

(** C6 fails as stated: the circle of radius -1 about the origin with
    normal (0,0,1) is constructed, and whatever basis [null_space] returns,
    its first sample is at distance 1 of the center, which is not the
    radius. *)
Lemma Circle3D_negative_radius_distance :
  exists circ,
    Circle3D.init (-1) vzero (mkVec 0 0 1) = Some circ /\
    Circle3D.r circ = -1 /\
    forall null_space : vec3 -> vec3 -> list vec3,
      (forall u v, null_space u v <> []) ->
      (forall u v w, In w (null_space u v) ->
         norm w = 1 /\ dot w u = 0 /\ dot w v = 0) ->
      exists p,
        In p (Circle3D.interpolate null_space circ 2) /\
        norm (vsub p (Circle3D.c circ)) = 1 /\
        norm (vsub p (Circle3D.c circ)) <> Circle3D.r circ.
Proof.
  assert (NZ : norm (mkVec 0 0 1) <> 0)
    by (rewrite norm_axis_z, Rabs_right; lra).
  eexists. split; [apply Circle3D_init_some; exact NZ|].
  split; [reflexivity|].
  intros ns Hne Horth.
  set (circ := Circle3D.mk (-1) vzero (vdiv (mkVec 0 0 1) (norm (mkVec 0 0 1)))).
  exists (nth 0 (Circle3D.interpolate ns circ 2) vzero).
  assert (Hin : In (nth 0 (Circle3D.interpolate ns circ 2) vzero)
                   (Circle3D.interpolate ns circ 2)).
  { apply nth_In. unfold Circle3D.interpolate.
    rewrite length_map, linspace_length. lia. }
  split; [exact Hin|].
  apply (Circle3D_samples_geometry ns Hne Horth) in Hin.
  - destruct Hin as [Hd _]. simpl in Hd. simpl.
    rewrite Hd. rewrite Rabs_left by lra. split; lra.
  - simpl. apply norm_vdiv_self. pose proof (norm_nonneg (mkVec 0 0 1)). lra.
Qed.

(** ** Facts on [arctan2] *)

Lemma arctan2_range (y x : R) : - PI < arctan2 y x <= PI.
Proof.
  pose proof PI_RGT_0 as Hpi. pose proof (atan_bound (y / x)) as [Hl Hu].
  unfold arctan2.
  destruct (Rlt_dec 0 x) as [Hx|Hx]; [lra|].
  destruct (Rlt_dec x 0) as [Hx'|Hx'].
  - assert (Hinv : / x < 0) by (apply Rinv_neg; assumption).
    destruct (Rle_dec 0 y) as [Hy|Hy].
    + assert (Hq : y / x <= 0) by (unfold Rdiv; nra).
      assert (atan (y / x) <= 0).
      { destruct Hq as [Hq|Hq].
        - left. rewrite <- atan_0. apply atan_increasing. assumption.
        - rewrite Hq, atan_0. lra. }
      lra.
    + assert (Hq : 0 < y / x) by (unfold Rdiv; nra).
      assert (0 < atan (y / x)).
      { rewrite <- atan_0. apply atan_increasing. assumption. }
      lra.
  - destruct (Rlt_dec 0 y); [lra|]. destruct (Rlt_dec y 0); lra.
Qed.

Lemma arctan2_zero_nonneg (x : R) : 0 <= x -> arctan2 0 x = 0.
Proof.
  intros Hx. unfold arctan2.
  destruct (Rlt_dec 0 x).
  - unfold Rdiv. rewrite Rmult_0_l. apply atan_0.
  - destruct (Rlt_dec x 0); [lra|].
    destruct (Rlt_dec 0 0); [lra|reflexivity].
Qed.

Lemma arctan2_zero_neg (x : R) : x < 0 -> arctan2 0 x = PI.
Proof.
  intros Hx. unfold arctan2.
  destruct (Rlt_dec 0 x); [lra|].
  destruct (Rlt_dec x 0); [|lra].
  destruct (Rle_dec 0 0); [|lra].
  unfold Rdiv. rewrite Rmult_0_l, atan_0. ring.
Qed.

(** [arctan2] is odd in its first argument, away from the negative x axis,
    where both [arctan2 0 x] and [arctan2 (- 0) x] are [PI]. *)
Lemma arctan2_opp (y x : R) :
  ~ (y = 0 /\ x < 0) -> arctan2 (- y) x = - arctan2 y x.
Proof.
  intros H. unfold arctan2.
  replace (- y / x) with (- (y / x)) by (unfold Rdiv; ring).
  rewrite atan_opp.
  destruct (Rlt_dec 0 x) as [Hx|Hx]; [reflexivity|].
  destruct (Rlt_dec x 0) as [Hx'|Hx'].
  - destruct (Rle_dec 0 (- y)) as [Hy|Hy]; destruct (Rle_dec 0 y) as [Hy'|Hy'].
    + exfalso. apply H. split; lra.
    + ring.
    + ring.
    + lra.
  - destruct (Rlt_dec 0 (- y)); destruct (Rlt_dec 0 y); try lra;
      destruct (Rlt_dec (- y) 0); destruct (Rlt_dec y 0); lra.
Qed.

(** ** [signedAngle] *)

Lemma norm_pos_nonzero (a : vec3) : a <> vzero -> 0 < norm a.
Proof.
  intros NE. destruct (Rlt_dec 0 (norm a)) as [?|H]; [assumption|].
  exfalso. apply NE. apply norm_not_pos in H. destruct H as (H1 & H2 & H3).
  apply vec3_eq; assumption.
Qed.

Lemma signedAngle_unit (a b n : vec3) :
  norm a = 1 -> norm b = 1 -> norm n = 1 ->
  signedAngle a b n = arctan2 (dot (cross a b) n) (dot a b).
Proof.
  intros Ha Hb Hn. unfold signedAngle. rewrite Ha, Hb, Hn.
  destruct (Rlt_dec 0 1); [|lra]. rewrite !vdiv_one. reflexivity.
Qed.

Lemma dot_cross_swap (a b n : vec3) :
  dot (cross b a) n = - dot (cross a b) n.
Proof. unfold dot, cross. simpl. ring. Qed.

(** The range of [signedAngle], for all inputs. *)
Lemma signedAngle_range (a b n : vec3) : - PI < signedAngle a b n <= PI.
Proof. unfold signedAngle. apply arctan2_range. Qed.

(** C8 fails as stated: for the unit vectors [a = (1,0,0)], [b = (-1,0,0)]
    and [n = (0,0,1)] both [signedAngle a b n] and [signedAngle b a n] are
    [PI], so that the negation of the first is not the second. *)
Lemma signedAngle_antiparallel :
  let a := mkVec 1 0 0 in
  let b := mkVec (-1) 0 0 in
  let n := mkVec 0 0 1 in
  norm a = 1 /\ norm b = 1 /\ norm n = 1 /\
  signedAngle a b n = PI /\ signedAngle b a n = PI /\
  - signedAngle a b n <> signedAngle b a n.
Proof.
  intros a b n.
  assert (Ha : norm a = 1) by (unfold a; rewrite norm_axis_x, Rabs_right; lra).
  assert (Hb : norm b = 1) by (unfold b; rewrite norm_axis_x, Rabs_left; lra).
  assert (Hn : norm n = 1) by (unfold n; rewrite norm_axis_z, Rabs_right; lra).
  assert (Hab : signedAngle a b n = PI).
  { rewrite signedAngle_unit by assumption.
    replace (dot (cross a b) n) with 0 by (unfold dot, cross; simpl; ring).
    apply arctan2_zero_neg. unfold dot. simpl. lra. }
  assert (Hba : signedAngle b a n = PI).
  { rewrite signedAngle_unit by assumption.
    replace (dot (cross b a) n) with 0 by (unfold dot, cross; simpl; ring).
    apply arctan2_zero_neg. unfold dot. simpl. lra. }
  repeat split; try assumption.
  rewrite Hab, Hba. pose proof PI_RGT_0. lra.
Qed.

(** C8, as amended: for all unit vectors [a], [b], [n], the result of
    [signedAngle] lies in (-pi, pi]; [signedAngle a a n] is 0; and the
    negation of [signedAngle a b n] is [signedAngle b a n] unless
    [dot (cross a b) n = 0] and [dot a b < 0] (as for antiparallel [a] and
    [b]), in which case both angles are [PI]. *)
Theorem signedAngle_antisymmetric
    (a b n : vec3) (Ha : norm a = 1) (Hb : norm b = 1) (Hn : norm n = 1) :
  - PI < signedAngle a b n <= PI /\
  signedAngle a a n = 0 /\
  (~ (dot (cross a b) n = 0 /\ dot a b < 0) ->
   - signedAngle a b n = signedAngle b a n) /\
  (dot (cross a b) n = 0 -> dot a b < 0 ->
   signedAngle a b n = PI /\ signedAngle b a n = PI).
Proof.
  split; [apply signedAngle_range|].
  split.
  { rewrite signedAngle_unit by assumption.
    rewrite cross_self.
    replace (dot vzero n) with 0 by (unfold dot; simpl; ring).
    apply arctan2_zero_nonneg. rewrite <- norm_sqr, Ha. lra. }
  rewrite !signedAngle_unit by assumption.
  rewrite (dot_cross_swap a b n), (dot_comm b a).
  split.
  - intros H. rewrite arctan2_opp by assumption. reflexivity.
  - intros Hy Hx. rewrite Hy, Ropp_0. split; apply arctan2_zero_neg; assumption.
Qed.

Lemma signedAngle_antisymmetric_witness :
  let a := mkVec 1 0 0 in
  let b := mkVec 0 1 0 in
  let n := mkVec 0 0 1 in
  - PI < signedAngle a b n <= PI /\
  signedAngle a a n = 0 /\
  (~ (dot (cross a b) n = 0 /\ dot a b < 0) ->
   - signedAngle a b n = signedAngle b a n) /\
  (dot (cross a b) n = 0 -> dot a b < 0 ->
   signedAngle a b n = PI /\ signedAngle b a n = PI).
Proof.
  intros a b n.
  apply (signedAngle_antisymmetric a b n).
  - unfold a. rewrite norm_axis_x, Rabs_right; lra.
  - unfold b. rewrite norm_axis_y, Rabs_right; lra.
  - unfold n. rewrite norm_axis_z, Rabs_right; lra.
Defined.


(** ** Rotations about an axis *)

Lemma norm_vneg (a : vec3) : norm (vneg a) = norm a.
Proof. unfold norm, vneg. simpl. f_equal. ring. Qed.

Lemma Rotation_apply_zero_axis (th : R) (x : vec3) :
  Rotation.apply (Rotation.from_rotvec (vscale th vzero)) x = x.
Proof.
  unfold Rotation.apply. cbn [Rotation.as_rotvec].
  rewrite norm_vscale, norm_vzero, Rmult_0_r.
  destruct (Rlt_dec 0 0); [lra|reflexivity].
Qed.

(** The rotation of [x] by the rotation vector [th * b], for a unit axis
    [b] orthogonal to [x], is [cos th * x + sin th * (b x x)], for every
    sign of [th]. *)
Lemma Rotation_apply_orthogonal (th : R) (b x : vec3) :
  norm b = 1 -> dot b x = 0 ->
  Rotation.apply (Rotation.from_rotvec (vscale th b)) x
  = vadd (vscale (cos th) x) (vscale (sin th) (cross b x)).
Proof.
  intros Hb Hbx. unfold Rotation.apply. cbn [Rotation.as_rotvec].
  rewrite norm_vscale, Hb, Rmult_1_r.
  destruct (Rlt_dec 0 (Rabs th)) as [Hpos|Hz].
  - destruct (Rcase_abs th) as [Hneg|Hge].
    + rewrite (Rabs_left th Hneg).
      assert (Ek : vdiv (vscale th b) (- th) = vneg b)
        by (apply vec3_eq; simpl; field; lra).
      rewrite Ek, cos_neg, sin_neg.
      replace (dot (vneg b) x) with (- dot b x) by (unfold dot; simpl; ring).
      rewrite Hbx. apply vec3_eq; simpl; ring.
    + assert (Hth : 0 < th).
      { destruct Hge as [?|E]; [lra|]. rewrite E, Rabs_R0 in Hpos. lra. }
      rewrite (Rabs_right th Hge).
      assert (Ek : vdiv (vscale th b) th = b)
        by (apply vec3_eq; simpl; field; lra).
      rewrite Ek, Hbx. apply vec3_eq; simpl; ring.
  - assert (Hth : th = 0).
    { destruct (Req_dec_T th 0) as [?|NE]; [assumption|].
      exfalso. apply Hz. apply Rabs_pos_lt. assumption. }
    rewrite Hth, cos_0, sin_0. apply vec3_eq; simpl; ring.
Qed.

(** ** [Arc3D]: the constructor *)

Lemma Arc3D_init_some (c s d : vec3) (th : R) :
  0 < norm (vsub s c) -> Rabs (dot d (vsub s c)) < 1 / 1000000 ->
  exists arc, Arc3D.init c s d th = Some arc.
Proof.
  intros H1 H2. unfold Arc3D.init.
  destruct (Rlt_dec 0 (norm (vsub s c))); [|contradiction].
  destruct (Rlt_dec (Rabs (dot d (vsub s c))) (1 / 1000000)); [|contradiction].
  eexists. reflexivity.
Qed.

Lemma Arc3D_init_none (c s d : vec3) (th : R) :
  Arc3D.init c s d th = None <->
  ~ 0 < norm (vsub s c) \/ ~ Rabs (dot d (vsub s c)) < 1 / 1000000.
Proof.
  unfold Arc3D.init.
  destruct (Rlt_dec 0 (norm (vsub s c))) as [H1|H1].
  - destruct (Rlt_dec (Rabs (dot d (vsub s c))) (1 / 1000000)) as [H2|H2].
    + split; [discriminate|]. intros [H|H]; contradiction.
    + split; [intros _; right; assumption | reflexivity].
  - split; [intros _; left; assumption | reflexivity].
Qed.

(** What a successful construction stores. *)
Lemma Arc3D_init_fields (c s d : vec3) (th : R) (arc : Arc3D.t) :
  Arc3D.init c s d th = Some arc ->
  let cts := vsub s c in
  let nrm := vdiv (vneg cts) (norm cts) in
  let b := cross (vdiv d (norm d)) nrm in
  0 < norm cts /\
  Rabs (dot d cts) < 1 / 1000000 /\
  Arc3D.circleCenter arc = c /\
  Arc3D.startPoint arc = s /\
  Arc3D.theta arc = th /\
  Arc3D.r arc = norm cts /\
  Arc3D.startNormal arc = nrm /\
  Arc3D.binormal arc = b /\
  Arc3D.endPoint arc
  = vadd c (Rotation.apply (Rotation.from_rotvec (vscale th b)) cts).
Proof.
  unfold Arc3D.init.
  destruct (Rlt_dec 0 (norm (vsub s c))) as [H1|H1]; [|discriminate].
  destruct (Rlt_dec (Rabs (dot d (vsub s c))) (1 / 1000000)) as [H2|H2];
    [|discriminate].
  intros E. injection E as <-. cbn. repeat split; assumption.
Qed.

(** The start tangent and start normal of an arc whose [startDir] is not
    zero and is orthogonal to the radius vector are orthonormal, so that the
    binormal is a unit vector, orthogonal to the radius vector. *)
Lemma Arc3D_binormal_exact (c s d : vec3) :
  0 < norm (vsub s c) -> d <> vzero -> dot d (vsub s c) = 0 ->
  let cts := vsub s c in
  let b := cross (vdiv d (norm d)) (vdiv (vneg cts) (norm cts)) in
  norm b = 1 /\ dot b cts = 0.
Proof.
  intros Hr Hd Horth cts b. apply norm_pos_nonzero in Hd.
  fold cts in Hr, Horth.
  split.
  - apply norm_cross_orthonormal.
    + apply norm_vdiv_self. assumption.
    + rewrite <- (norm_vneg cts). apply norm_vdiv_self.
      rewrite norm_vneg. assumption.
    + rewrite dot_vdiv_l, dot_vdiv_r.
      replace (dot d (vneg cts)) with (- dot d cts) by (unfold dot; simpl; ring).
      rewrite Horth. unfold Rdiv. ring.
  - assert (E : cts = vscale (- norm cts) (vdiv (vneg cts) (norm cts)))
      by (apply vec3_eq; simpl; field; lra).
    rewrite E at 1.
    replace (dot b (vscale (- norm cts) (vdiv (vneg cts) (norm cts))))
      with (- norm cts * dot b (vdiv (vneg cts) (norm cts)))
      by (unfold dot; simpl; ring).
    unfold b. rewrite dot_cross_r. ring.
Qed.

(** ** [Arc3D]: the samples *)

(** Every row of [interpolate], on every constructed arc, is
    [c + cos a * cts + sin a * (b x cts)], with [cts] the radius vector to
    the start point and [b] the binormal. *)
Lemma Arc3D_point_formula (c s d : vec3) (th : R) (arc : Arc3D.t) (a : R) :
  Arc3D.init c s d th = Some arc ->
  Arc3D.point arc (vneg (Arc3D.startNormal arc))
    (cross (Arc3D.binormal arc) (vneg (Arc3D.startNormal arc))) a
  = vadd c (vadd (vscale (cos a) (vsub s c))
                 (vscale (sin a) (cross (Arc3D.binormal arc) (vsub s c)))).
Proof.
  intros Hi. apply Arc3D_init_fields in Hi. cbv zeta in Hi.
  destruct Hi as (Hr & _ & Ec & _ & _ & Er & En & _ & _).
  unfold Arc3D.point. rewrite Ec, Er, En.
  set (rad := norm (vsub s c)) in *.
  apply vec3_eq; simpl; field; lra.
Qed.

Lemma Arc3D_interpolate_length (arc : Arc3D.t) (count : nat) :
  length (Arc3D.interpolate arc count) = count.
Proof.
  unfold Arc3D.interpolate. rewrite length_map. apply linspace_length.
Qed.

Lemma Arc3D_interpolate_nth (arc : Arc3D.t) (count i : nat) (dflt : vec3) :
  (2 <= count)%nat -> (i < count)%nat ->
  nth i (Arc3D.interpolate arc count) dflt
  = Arc3D.point arc (vneg (Arc3D.startNormal arc))
      (cross (Arc3D.binormal arc) (vneg (Arc3D.startNormal arc)))
      (INR i * (Arc3D.theta arc / INR (count - 1))).
Proof.
  intros Hc Hi. unfold Arc3D.interpolate.
  rewrite (nth_map_in _ _ _ 0) by (rewrite linspace_length; lia).
  rewrite linspace_nth by lia. f_equal. unfold Rdiv. ring.
Qed.

Lemma Arc3D_first_sample (c s d : vec3) (th : R) (arc : Arc3D.t)
    (count : nat) (dflt : vec3) :
  Arc3D.init c s d th = Some arc -> (2 <= count)%nat ->
  nth 0 (Arc3D.interpolate arc count) dflt = s.
Proof.
  intros Hi Hc. rewrite Arc3D_interpolate_nth by lia.
  rewrite (Arc3D_point_formula c s d th arc _ Hi).
  simpl INR. rewrite Rmult_0_l, cos_0, sin_0. apply vec3_eq; simpl; ring.
Qed.

Lemma Arc3D_last_sample (c s d : vec3) (th : R) (arc : Arc3D.t)
    (count : nat) (dflt : vec3) :
  Arc3D.init c s d th = Some arc -> (2 <= count)%nat ->
  nth (count - 1) (Arc3D.interpolate arc count) dflt
  = vadd c (vadd (vscale (cos th) (vsub s c))
                 (vscale (sin th) (cross (Arc3D.binormal arc) (vsub s c)))).
Proof.
  intros Hi Hc. rewrite Arc3D_interpolate_nth by lia.
  rewrite (Arc3D_point_formula c s d th arc _ Hi).
  pose proof (Arc3D_init_fields c s d th arc Hi) as F. cbv zeta in F.
  destruct F as (_ & _ & _ & _ & Eth & _).
  assert (Hk : INR (count - 1) <> 0) by (apply not_0_INR; lia).
  replace (INR (count - 1) * (Arc3D.theta arc / INR (count - 1))) with th
    by (rewrite Eth; field; assumption).
  reflexivity.
Qed.

(** With a nonzero [startDir] orthogonal to the radius vector, the end
    point that the rotation gives is the point of the parametrization at the
    angle [theta]. *)
Lemma Arc3D_endPoint_exact (c s d : vec3) (th : R) (arc : Arc3D.t) :
  Arc3D.init c s d th = Some arc -> d <> vzero -> dot d (vsub s c) = 0 ->
  Arc3D.endPoint arc
  = vadd c (vadd (vscale (cos th) (vsub s c))
                 (vscale (sin th) (cross (Arc3D.binormal arc) (vsub s c)))).
Proof.
  intros Hi Hd Horth.
  pose proof (Arc3D_init_fields c s d th arc Hi) as F. cbv zeta in F.
  destruct F as (Hr & _ & _ & _ & _ & _ & _ & Eb & Ee).
  destruct (Arc3D_binormal_exact c s d Hr Hd Horth) as [Hb1 Hb2].
  rewrite Ee, Eb. rewrite Rotation_apply_orthogonal by assumption.
  reflexivity.
Qed.

(** ** [Arc3D]: the claims *)

(** C2: the construction of an [Arc3D] fails exactly when the start point
    is the circle center or [startDir] is not orthogonal to the radius
    vector within the tolerance 1e-6 (the absolute value of their dot
    product is not below 1e-6); it succeeds for every input with a start
    point that differs from the center and a dot product below 1e-6 in
    absolute value; and it fails at [circleCenter = (0,0,0)],
    [startPoint = (1,0,0)], [startDir = (1,0,0)], for every [theta]. *)
Theorem Arc3D_init_fails_iff (c s d : vec3) (th : R) :
  (Arc3D.init c s d th = None <->
   s = c \/ 1 / 1000000 <= Rabs (dot d (vsub s c))) /\
  (s <> c -> Rabs (dot d (vsub s c)) < 1 / 1000000 ->
   exists arc, Arc3D.init c s d th = Some arc) /\
  Arc3D.init vzero (mkVec 1 0 0) (mkVec 1 0 0) th = None.
Proof.
  split; [|split].
  - rewrite Arc3D_init_none. split.
    + intros [H|H].
      * left. destruct (norm_pos_neq s c) as [_ Hn].
        destruct (vec3_eq_dec s c) as [E|NE]; [assumption|].
        exfalso. apply H, Hn, NE.
      * right. lra.
    + intros [E|H].
      * left. intros Hp. apply norm_pos_neq in Hp. contradiction.
      * right. lra.
  - intros NE Hd. apply Arc3D_init_some; [apply norm_pos_neq|]; assumption.
  - apply Arc3D_init_none. right.
    replace (dot (mkVec 1 0 0) (vsub (mkVec 1 0 0) vzero)) with 1
      by (unfold dot; simpl; ring).
    rewrite Rabs_right; lra.
Qed.

(** C3 does not hold on the code: with the zero vector as [startDir] the
    dot product with the radius vector is 0, both assertions pass and the
    construction succeeds, for every [theta]; here at
    [circleCenter = (0,0,0)], [startPoint = (1,0,0)]. *)
Theorem Arc3D_init_zero_startDir (th : R) :
  exists arc, Arc3D.init vzero (mkVec 1 0 0) vzero th = Some arc.
Proof.
  apply Arc3D_init_some.
  - apply norm_pos_neq. intros E. apply (f_equal vx) in E. simpl in E. lra.
  - replace (dot vzero (vsub (mkVec 1 0 0) vzero)) with 0
      by (unfold dot; simpl; ring).
    rewrite Rabs_R0. lra.
Qed.

(** The arc of the scenario: center (0,0,0), start point (1,0,0), start
    direction (0,0,1), sweep pi/2.  Its binormal is (0,-1,0) and its end
    point is (0,0,1): the arc stays in the plane of the radius vector and
    the start direction, the xz-plane. *)
Lemma Arc3D_quarter_fields (arc : Arc3D.t) :
  Arc3D.init vzero (mkVec 1 0 0) (mkVec 0 0 1) (PI / 2) = Some arc ->
  Arc3D.binormal arc = mkVec 0 (-1) 0 /\ Arc3D.endPoint arc = mkVec 0 0 1.
Proof.
  intros Hi.
  assert (Hd : mkVec 0 0 1 <> vzero).
  { intros E. apply (f_equal vz) in E. simpl in E. lra. }
  assert (Ho : dot (mkVec 0 0 1) (vsub (mkVec 1 0 0) vzero) = 0)
    by (unfold dot; simpl; ring).
  pose proof (Arc3D_endPoint_exact _ _ _ _ _ Hi Hd Ho) as Ee.
  pose proof (Arc3D_init_fields _ _ _ _ _ Hi) as F. cbv zeta in F.
  destruct F as (_ & _ & _ & _ & _ & _ & _ & Eb & _).
  assert (N1 : norm (mkVec 0 0 1) = 1)
    by (rewrite norm_axis_z, Rabs_right; lra).
  assert (N2 : norm (vsub (mkVec 1 0 0) vzero) = 1)
    by (apply norm_unit; unfold dot; simpl; ring).
  rewrite N1, N2 in Eb.
  assert (Eb' : Arc3D.binormal arc = mkVec 0 (-1) 0)
    by (rewrite Eb; apply vec3_eq; simpl; field).
  split; [exact Eb'|].
  rewrite Ee, Eb', cos_PI2, sin_PI2. apply vec3_eq; simpl; ring.
Qed.

Lemma Arc3D_quarter_constructed :
  exists arc,
    Arc3D.init vzero (mkVec 1 0 0) (mkVec 0 0 1) (PI / 2) = Some arc.
Proof.
  apply Arc3D_init_some.
  - apply norm_pos_neq. intros E. apply (f_equal vx) in E. simpl in E. lra.
  - replace (dot (mkVec 0 0 1) (vsub (mkVec 1 0 0) vzero)) with 0
      by (unfold dot; simpl; ring).
    rewrite Rabs_R0. lra.
Qed.

(** C4 fails as stated: the end point of the arc of the scenario is
    (0,0,1), which is farther than 1 from (0,1,0) and from (0,-1,0). *)
Lemma Arc3D_quarter_endPoint_on_z :
  exists arc,
    Arc3D.init vzero (mkVec 1 0 0) (mkVec 0 0 1) (PI / 2) = Some arc /\
    Arc3D.endPoint arc = mkVec 0 0 1 /\
    1 < norm (vsub (Arc3D.endPoint arc) (mkVec 0 1 0)) /\
    1 < norm (vsub (Arc3D.endPoint arc) (mkVec 0 (-1) 0)).
Proof.
  destruct Arc3D_quarter_constructed as [arc Hi]. exists arc.
  destruct (Arc3D_quarter_fields arc Hi) as [_ Ee].
  split; [exact Hi|]. split; [exact Ee|]. rewrite Ee.
  split.
  - pose proof (norm_sqr (vsub (mkVec 0 0 1) (mkVec 0 1 0))) as Hs.
    pose proof (norm_nonneg (vsub (mkVec 0 0 1) (mkVec 0 1 0))) as Hp.
    unfold dot in Hs. simpl in Hs. nra.
  - pose proof (norm_sqr (vsub (mkVec 0 0 1) (mkVec 0 (-1) 0))) as Hs.
    pose proof (norm_nonneg (vsub (mkVec 0 0 1) (mkVec 0 (-1) 0))) as Hp.
    unfold dot in Hs. simpl in Hs. nra.
Qed.

(** C4, as amended: for the [Arc3D] constructed with
    [circleCenter = (0,0,0)], [startPoint = (1,0,0)], [startDir = (0,0,1)],
    [theta = pi/2], the derived binormal is (0,-1,0) and the derived end
    point is (0,0,1), and [interpolate 3] returns 3 points, the first of
    which is (1,0,0) and the last of which is that end point. *)
Theorem Arc3D_quarter_scenario :
  exists arc,
    Arc3D.init vzero (mkVec 1 0 0) (mkVec 0 0 1) (PI / 2) = Some arc /\
    Arc3D.binormal arc = mkVec 0 (-1) 0 /\
    Arc3D.endPoint arc = mkVec 0 0 1 /\
    length (Arc3D.interpolate arc 3) = 3%nat /\
    nth 0 (Arc3D.interpolate arc 3) vzero = mkVec 1 0 0 /\
    nth 2 (Arc3D.interpolate arc 3) vzero = Arc3D.endPoint arc.
Proof.
  destruct Arc3D_quarter_constructed as [arc Hi]. exists arc.
  destruct (Arc3D_quarter_fields arc Hi) as [Eb Ee].
  split; [exact Hi|]. split; [exact Eb|]. split; [exact Ee|].
  split; [apply Arc3D_interpolate_length|].
  split.
  - apply (Arc3D_first_sample _ _ _ _ _ 3 vzero Hi). lia.
  - pose proof (Arc3D_last_sample _ _ _ _ _ 3 vzero Hi) as Hl.
    simpl Nat.sub in Hl. rewrite Hl by lia.
    rewrite Ee, Eb, cos_PI2, sin_PI2. apply vec3_eq; simpl; ring.
Qed.

(** C5 fails as stated: with [circleCenter = (0,0,0)],
    [startPoint = (1,0,0)], [startDir = (1e-7,0,0)] and [theta = pi] the dot
    product of the assertion is 1e-7, the construction succeeds, the start
    tangent is radial and the binormal is zero; the rotation is the identity
    and the end point is (1,0,0), while the last of 2 samples is (-1,0,0). *)
Lemma Arc3D_radial_startDir_last_sample :
  exists arc,
    Arc3D.init vzero (mkVec 1 0 0) (mkVec (1 / 10000000) 0 0) PI = Some arc /\
    Arc3D.endPoint arc = mkVec 1 0 0 /\
    nth (2 - 1) (Arc3D.interpolate arc 2) vzero = mkVec (-1) 0 0 /\
    nth (2 - 1) (Arc3D.interpolate arc 2) vzero <> Arc3D.endPoint arc.
Proof.
  assert (Hex : exists arc,
    Arc3D.init vzero (mkVec 1 0 0) (mkVec (1 / 10000000) 0 0) PI = Some arc).
  { apply Arc3D_init_some.
    - apply norm_pos_neq. intros E. apply (f_equal vx) in E. simpl in E. lra.
    - replace (dot (mkVec (1 / 10000000) 0 0) (vsub (mkVec 1 0 0) vzero))
        with (1 / 10000000) by (unfold dot; simpl; field).
      rewrite Rabs_right; lra. }
  destruct Hex as [arc Hi]. exists arc.
  pose proof (Arc3D_init_fields _ _ _ _ _ Hi) as F. cbv zeta in F.
  destruct F as (_ & _ & _ & _ & _ & _ & _ & Eb & Ee).
  assert (N1 : norm (mkVec (1 / 10000000) 0 0) = 1 / 10000000)
    by (rewrite norm_axis_x, Rabs_right; lra).
  assert (N2 : norm (vsub (mkVec 1 0 0) vzero) = 1)
    by (apply norm_unit; unfold dot; simpl; ring).
  assert (Eb0 : cross (vdiv (mkVec (1 / 10000000) 0 0)
                         (norm (mkVec (1 / 10000000) 0 0)))
                  (vdiv (vneg (vsub (mkVec 1 0 0) vzero))
                         (norm (vsub (mkVec 1 0 0) vzero))) = vzero).
  { rewrite N1, N2. apply vec3_eq; simpl; field. }
  rewrite Eb0 in Eb, Ee. rewrite Rotation_apply_zero_axis in Ee.
  assert (Ee' : Arc3D.endPoint arc = mkVec 1 0 0)
    by (rewrite Ee; apply vec3_eq; simpl; ring).
  assert (El : nth (2 - 1) (Arc3D.interpolate arc 2) vzero = mkVec (-1) 0 0).
  { rewrite (Arc3D_last_sample _ _ _ _ _ 2 vzero Hi) by lia.
    rewrite Eb, cos_PI, sin_PI. apply vec3_eq; simpl; ring. }
  split; [exact Hi|]. split; [exact Ee'|]. split; [exact El|].
  rewrite El, Ee'. intros E. apply (f_equal vx) in E. simpl in E. lra.
Qed.

(** C5, as amended: for every [Arc3D] constructed with a [startDir] that
    is not the zero vector and every [count >= 2], [interpolate count]
    returns exactly [count] points; the point of index [i] is the point of
    the parametrization at the angle [i * theta / (count - 1)], so that the
    samples are at equal angular steps over [0, theta], both ends included;
    the first sample is the start point; and the last sample is the derived
    end point whenever [startDir] is orthogonal to the radius vector (dot
    product 0, not only below the tolerance). *)
Theorem Arc3D_interpolate_samples
    (c s d : vec3) (th : R) (count : nat) :
  s <> c -> Rabs (dot d (vsub s c)) < 1 / 1000000 -> d <> vzero ->
  (2 <= count)%nat ->
  exists arc,
    Arc3D.init c s d th = Some arc /\
    length (Arc3D.interpolate arc count) = count /\
    (forall i dflt, (i < count)%nat ->
       let a := INR i * (th / INR (count - 1)) in
       nth i (Arc3D.interpolate arc count) dflt
       = vadd c (vadd (vscale (cos a) (vsub s c))
                      (vscale (sin a) (cross (Arc3D.binormal arc) (vsub s c))))) /\
    (forall dflt, nth 0 (Arc3D.interpolate arc count) dflt = s) /\
    (dot d (vsub s c) = 0 -> forall dflt,
       nth (count - 1) (Arc3D.interpolate arc count) dflt
       = Arc3D.endPoint arc).
Proof.
  intros NE Hd Hnz Hc.
  destruct (Arc3D_init_some c s d th) as [arc Hi];
    [apply norm_pos_neq; assumption | assumption |].
  exists arc. split; [exact Hi|].
  split; [apply Arc3D_interpolate_length|].
  split; [|split].
  - intros i dflt Hlt a. rewrite Arc3D_interpolate_nth by lia.
    rewrite (Arc3D_point_formula c s d th arc _ Hi).
    pose proof (Arc3D_init_fields c s d th arc Hi) as F. cbv zeta in F.
    destruct F as (_ & _ & _ & _ & Eth & _). rewrite Eth. reflexivity.
  - intros dflt. apply (Arc3D_first_sample c s d th arc count dflt Hi Hc).
  - intros Ho dflt.
    rewrite (Arc3D_last_sample c s d th arc count dflt Hi Hc).
    symmetry. apply (Arc3D_endPoint_exact c s d th arc); assumption.
Qed.

(** The scenario of the quarter arc, with 3 samples. *)
Lemma Arc3D_interpolate_samples_witness :
  exists arc,
    Arc3D.init vzero (mkVec 1 0 0) (mkVec 0 0 1) (PI / 2) = Some arc /\
    length (Arc3D.interpolate arc 3) = 3%nat /\
    (forall i dflt, (i < 3)%nat ->
       let a := INR i * (PI / 2 / INR (3 - 1)) in
       nth i (Arc3D.interpolate arc 3) dflt
       = vadd vzero
           (vadd (vscale (cos a) (vsub (mkVec 1 0 0) vzero))
                 (vscale (sin a) (cross (Arc3D.binormal arc)
                                        (vsub (mkVec 1 0 0) vzero))))) /\
    (forall dflt, nth 0 (Arc3D.interpolate arc 3) dflt = mkVec 1 0 0) /\
    (dot (mkVec 0 0 1) (vsub (mkVec 1 0 0) vzero) = 0 -> forall dflt,
       nth (3 - 1) (Arc3D.interpolate arc 3) dflt = Arc3D.endPoint arc).
Proof.
  apply (Arc3D_interpolate_samples vzero (mkVec 1 0 0) (mkVec 0 0 1) (PI / 2) 3).
  - intros E. apply (f_equal vx) in E. simpl in E. lra.
  - replace (dot (mkVec 0 0 1) (vsub (mkVec 1 0 0) vzero)) with 0
      by (unfold dot; simpl; ring).
    rewrite Rabs_R0. lra.
  - intros E. apply (f_equal vz) in E. simpl in E. lra.
  - lia.
Defined.

(** * Further properties of the helpers *)

(** ** [wrapAngle] *)

Lemma two_PI_pos : 0 < 2 * PI.
Proof. pose proof PI_RGT_0. lra. Qed.

Lemma wrapAngle_shift (x : R) :
  exists k : Z, wrapAngle x = x - 2 * PI * IZR k.
Proof. apply float_rem_shift, two_PI_pos. Qed.


Lemma sin_cos_period_Z (x : R) (k : Z) :
  sin (x + 2 * PI * IZR k) = sin x /\ cos (x + 2 * PI * IZR k) = cos x.
Proof.
  destruct (Z_le_gt_dec 0 k) as [Hk|Hk].
  - rewrite <- (Z2Nat.id k Hk), <- INR_IZR_INZ.
    replace (x + 2 * PI * INR (Z.to_nat k))
      with (x + 2 * INR (Z.to_nat k) * PI) by ring.
    split; [apply sin_period | apply cos_period].
  - assert (Hm : (0 <= - k)%Z) by lia.
    set (y := x + 2 * PI * IZR k).
    assert (Ex : x = y + 2 * INR (Z.to_nat (- k)) * PI).
    { unfold y. rewrite INR_IZR_INZ, (Z2Nat.id _ Hm), opp_IZR. ring. }
    split; rewrite Ex; [rewrite sin_period | rewrite cos_period]; reflexivity.
Qed.


(** X2: wrapping an angle changes neither its sine nor its cosine. *)
Theorem wrapAngle_sin_cos (x : R) :
  sin (wrapAngle x) = sin x /\ cos (wrapAngle x) = cos x.
Proof.
  destruct (wrapAngle_shift x) as [k Hk]. rewrite Hk.
  replace (x - 2 * PI * IZR k) with (x + 2 * PI * IZR (- k))
    by (rewrite opp_IZR; ring).
  apply sin_cos_period_Z.
Qed.


(** ** Scaled and opposite vectors *)

Lemma vdiv_vneg (a : vec3) (s : R) : vdiv (vneg a) s = vneg (vdiv a s).
Proof. apply vec3_eq; simpl; unfold Rdiv; ring. Qed.


Lemma normalize_vscale (p : R) (a : vec3) :
  0 < p -> 0 < norm a ->
  vdiv (vscale p a) (norm (vscale p a)) = vdiv a (norm a).
Proof.
  intros Hp Ha. rewrite norm_vscale, Rabs_right by lra.
  apply vec3_eq; simpl; field; split; lra.
Qed.



Lemma norm_nonzero_pos (a : vec3) : norm a <> 0 -> 0 < norm a.
Proof. intros H. pose proof (norm_nonneg a). lra. Qed.


(** ** [arctan2] and [signedAngle]: angles of rotations *)

Lemma tan_shift_PI (y : R) :
  cos y <> 0 -> sin (y + PI) / cos (y + PI) = tan y.
Proof.
  intros H. rewrite neg_sin, neg_cos. unfold tan. field. assumption.
Qed.

(** [arctan2] recovers an angle of (-pi, pi] from its sine and cosine. *)
Lemma arctan2_sin_cos (th : R) :
  - PI < th <= PI -> arctan2 (sin th) (cos th) = th.
Proof.
  intros [Hl Hu]. pose proof PI_RGT_0 as Hpi. unfold arctan2.
  destruct (Rtotal_order th (- (PI / 2))) as [H1|[H1|H1]].
  - (* -pi < th < -pi/2 *)
    set (y := th + PI).
    assert (Hy : 0 < y < PI / 2) by (unfold y; lra).
    assert (Hc : 0 < cos y) by (apply cos_gt_0; lra).
    assert (Hs : 0 < sin y) by (apply sin_gt_0; lra).
    assert (Eth : th = y + - PI) by (unfold y; ring).
    assert (Ec : cos th = - cos y).
    { rewrite Eth, cos_plus, cos_neg, sin_neg, cos_PI, sin_PI. ring. }
    assert (Es : sin th = - sin y).
    { rewrite Eth, sin_plus, cos_neg, sin_neg, cos_PI, sin_PI. ring. }
    rewrite Ec, Es.
    destruct (Rlt_dec 0 (- cos y)); [lra|].
    destruct (Rlt_dec (- cos y) 0); [|lra].
    destruct (Rle_dec 0 (- sin y)); [lra|].
    replace (- sin y / - cos y) with (tan y) by (unfold tan; field; lra).
    rewrite atan_tan by lra. unfold y. ring.
  - (* th = -pi/2 *)
    rewrite H1, cos_neg, sin_neg, cos_PI2, sin_PI2.
    destruct (Rlt_dec 0 0); [lra|].
    destruct (Rlt_dec 0 (- (1))); [lra|].
    destruct (Rlt_dec (- (1)) 0); [reflexivity|lra].
  - destruct (Rtotal_order th (PI / 2)) as [H2|[H2|H2]].
    + (* -pi/2 < th < pi/2 *)
      assert (Hc : 0 < cos th) by (apply cos_gt_0; lra).
      destruct (Rlt_dec 0 (cos th)); [|lra].
      fold (tan th). apply atan_tan. lra.
    + (* th = pi/2 *)
      rewrite H2, cos_PI2, sin_PI2.
      destruct (Rlt_dec 0 0); [lra|].
      destruct (Rlt_dec 0 1); [reflexivity|lra].
    + (* pi/2 < th <= pi *)
      assert (Hc : cos th < 0) by (apply cos_lt_0; lra).
      assert (Hs : 0 <= sin th) by (apply sin_ge_0; lra).
      destruct (Rlt_dec 0 (cos th)); [lra|].
      destruct (Rlt_dec (cos th) 0); [|lra].
      destruct (Rle_dec 0 (sin th)); [|lra].
      set (y := th - PI).
      assert (Hy : - (PI / 2) < y <= 0) by (unfold y; lra).
      assert (Hcy : 0 < cos y) by (apply cos_gt_0; lra).
      replace th with (y + PI) at 1 2 by (unfold y; ring).
      rewrite tan_shift_PI by lra. rewrite atan_tan by lra. unfold y. ring.
Qed.

Lemma vec_100_nonzero : mkVec 1 0 0 <> vzero.
Proof. intros E. apply (f_equal vx) in E. simpl in E. lra. Qed.

Lemma vec_010_nonzero : mkVec 0 1 0 <> vzero.
Proof. intros E. apply (f_equal vy) in E. simpl in E. lra. Qed.

Lemma vec_001_nonzero : mkVec 0 0 1 <> vzero.
Proof. intros E. apply (f_equal vz) in E. simpl in E. lra. Qed.

Lemma norm_100 : norm (mkVec 1 0 0) = 1.
Proof. rewrite norm_axis_x, Rabs_right; lra. Qed.

Lemma norm_010 : norm (mkVec 0 1 0) = 1.
Proof. rewrite norm_axis_y, Rabs_right; lra. Qed.

Lemma norm_001 : norm (mkVec 0 0 1) = 1.
Proof. rewrite norm_axis_z, Rabs_right; lra. Qed.

Lemma signedAngle_positive_scaling (a b n : vec3) (p q k : R) :
  a <> vzero -> b <> vzero -> 0 < p -> 0 < q -> 0 < k ->
  signedAngle (vscale p a) (vscale q b) (vscale k n) = signedAngle a b n.
Proof.
  intros Ha Hb Hp Hq Hk. apply norm_pos_nonzero in Ha, Hb.
  unfold signedAngle.
  rewrite (normalize_vscale p a Hp Ha), (normalize_vscale q b Hq Hb).
  destruct (Rlt_dec 0 (norm n)) as [Hn|Hn].
  - destruct (Rlt_dec 0 (norm (vscale k n))) as [Hn'|Hn'].
    + rewrite (normalize_vscale k n Hk Hn). reflexivity.
    + exfalso. apply Hn'. rewrite norm_vscale, Rabs_right by lra. nra.
  - destruct (Rlt_dec 0 (norm (vscale k n))) as [Hn'|Hn'].
    + exfalso. apply Hn. rewrite norm_vscale, Rabs_right in Hn' by lra.
      pose proof (norm_nonneg n). nra.
    + apply norm_not_pos in Hn. destruct Hn as (N1 & N2 & N3).
      f_equal. unfold dot. simpl. rewrite N1, N2, N3. ring.
Qed.


Lemma dot_cross_rotated (a n : vec3) (x y : R) :
  dot (cross a (vadd (vscale x a) (vscale y (cross n a)))) n
  = y * (dot a a * dot n n - dot a n * dot a n).
Proof. unfold dot, cross, vadd, vscale. simpl. ring. Qed.

Lemma dot_rotated (a n : vec3) (x y : R) :
  dot a (vadd (vscale x a) (vscale y (cross n a))) = x * dot a a.
Proof. unfold dot, cross, vadd, vscale. simpl. ring. Qed.

Lemma norm_rotated (a n : vec3) (th : R) :
  norm a = 1 -> norm n = 1 -> dot a n = 0 ->
  norm (vadd (vscale (cos th) a) (vscale (sin th) (cross n a))) = 1.
Proof.
  intros Ha Hn Han. apply norm_unit.
  rewrite dot_lincomb_self, dot_cross_cross.
  rewrite (dot_comm n a), Han.
  replace (dot a (cross n a)) with 0
    by (rewrite dot_comm, dot_cross_r; reflexivity).
  rewrite <- !norm_sqr, Ha, Hn.
  pose proof (sin2_cos2 th) as Hsc. unfold Rsqr in Hsc. nra.
Qed.

Lemma signedAngle_turned (a n : vec3) (th : R) :
  norm a = 1 -> norm n = 1 -> dot a n = 0 -> - PI < th <= PI ->
  signedAngle a (vadd (vscale (cos th) a) (vscale (sin th) (cross n a))) n
  = th.
Proof.
  intros Ha Hn Han Hth.
  rewrite signedAngle_unit;
    [| assumption | apply norm_rotated; assumption | assumption].
  rewrite dot_cross_rotated, dot_rotated, Han, <- !norm_sqr, Ha, Hn.
  replace (sin th * (1 * 1 * (1 * 1) - 0 * 0)) with (sin th) by ring.
  replace (cos th * (1 * 1)) with (cos th) by ring.
  apply arctan2_sin_cos. assumption.
Qed.

(** X7: [signedAngle] measures right-handed rotations about the axis: for
    a unit axis [n], a unit vector [a] orthogonal to it and an angle [th] of
    (-pi, pi], the signed angle from [a] to [a] turned by [th] about [n],
    that is [cos th * a + sin th * (n x a)], is [th]. *)
Theorem signedAngle_of_rotation (a n : vec3) (th : R) :
  norm a = 1 -> norm n = 1 -> dot a n = 0 -> - PI < th <= PI ->
  signedAngle a (vadd (vscale (cos th) a) (vscale (sin th) (cross n a))) n
  = th.
Proof. exact (signedAngle_turned a n th). Qed.

Lemma quarter_angle_range : - PI < PI / 2 <= PI.
Proof. pose proof PI_RGT_0. lra. Qed.

Lemma signedAngle_of_rotation_witness :
  signedAngle (mkVec 1 0 0)
    (vadd (vscale (cos (PI / 2)) (mkVec 1 0 0))
          (vscale (sin (PI / 2)) (cross (mkVec 0 0 1) (mkVec 1 0 0))))
    (mkVec 0 0 1)
  = PI / 2.
Proof.
  apply (signedAngle_of_rotation (mkVec 1 0 0) (mkVec 0 0 1) (PI / 2)).
  - exact norm_100.
  - exact norm_001.
  - unfold dot. simpl. ring.
  - exact quarter_angle_range.
Defined.

(** X8: for unit vectors, turning the axis around changes the sign of the
    angle, except where [dot (cross a b) n = 0] and [dot a b < 0], where the
    angle is [PI] for both axes. *)
Theorem signedAngle_opposite_axis (a b n : vec3) :
  norm a = 1 -> norm b = 1 -> norm n = 1 ->
  (~ (dot (cross a b) n = 0 /\ dot a b < 0) ->
   signedAngle a b (vneg n) = - signedAngle a b n) /\
  (dot (cross a b) n = 0 -> dot a b < 0 ->
   signedAngle a b (vneg n) = PI /\ signedAngle a b n = PI).
Proof.
  intros Ha Hb Hn.
  assert (Hn' : norm (vneg n) = 1) by (rewrite norm_vneg; assumption).
  rewrite !signedAngle_unit by assumption.
  replace (dot (cross a b) (vneg n)) with (- dot (cross a b) n)
    by (unfold dot; simpl; ring).
  split.
  - intros H. apply arctan2_opp. assumption.
  - intros Hy Hx. rewrite Hy, Ropp_0.
    split; apply arctan2_zero_neg; assumption.
Qed.

Lemma signedAngle_opposite_axis_witness :
  (~ (dot (cross (mkVec 1 0 0) (mkVec 0 1 0)) (mkVec 0 0 1) = 0 /\
      dot (mkVec 1 0 0) (mkVec 0 1 0) < 0) ->
   signedAngle (mkVec 1 0 0) (mkVec 0 1 0) (vneg (mkVec 0 0 1))
   = - signedAngle (mkVec 1 0 0) (mkVec 0 1 0) (mkVec 0 0 1)) /\
  (dot (cross (mkVec 1 0 0) (mkVec 0 1 0)) (mkVec 0 0 1) = 0 ->
   dot (mkVec 1 0 0) (mkVec 0 1 0) < 0 ->
   signedAngle (mkVec 1 0 0) (mkVec 0 1 0) (vneg (mkVec 0 0 1)) = PI /\
   signedAngle (mkVec 1 0 0) (mkVec 0 1 0) (mkVec 0 0 1) = PI).
Proof.
  exact (signedAngle_opposite_axis (mkVec 1 0 0) (mkVec 0 1 0) (mkVec 0 0 1)
           norm_100 norm_010 norm_001).
Defined.

(** ** [Circle3D]: the normal and the sense of the samples *)

(** X9: the circle constructed does not depend on the length of the
    normal: a positive multiple of the normal constructs the same circle. *)
Theorem Circle3D_init_normal_scaling
    (radius : R) (center normal : vec3) (k : R) :
  0 < k -> norm normal <> 0 ->
  Circle3D.init radius center (vscale k normal)
  = Circle3D.init radius center normal.
Proof.
  intros Hk NZ. pose proof (norm_nonzero_pos _ NZ) as Hn.
  rewrite (Circle3D_init_some radius center normal NZ).
  rewrite Circle3D_init_some.
  - rewrite (normalize_vscale k normal Hk Hn). reflexivity.
  - rewrite norm_vscale, Rabs_right by lra. nra.
Qed.

Lemma Circle3D_init_normal_scaling_witness :
  Circle3D.init 2 vzero (vscale 5 (mkVec 0 0 2))
  = Circle3D.init 2 vzero (mkVec 0 0 2).
Proof.
  apply (Circle3D_init_normal_scaling 2 vzero (mkVec 0 0 2) 5);
    [lra | exact norm_002].
Defined.

Lemma norm_one_nonzero (a : vec3) : norm a = 1 -> a <> vzero.
Proof. intros H E. rewrite E, norm_vzero in H. lra. Qed.

Lemma vscale_normalized (a : vec3) :
  norm a <> 0 -> a = vscale (norm a) (vdiv a (norm a)).
Proof. intros H. apply vec3_eq; simpl; field; assumption. Qed.

Lemma Circle3D_point_offset_scaled
    (self : Circle3D.t) (uhat vhat : vec3) (a : R) :
  vsub (Circle3D.point self uhat vhat a) (Circle3D.c self)
  = vscale (Circle3D.r self)
      (vadd (vscale (cos a) uhat) (vscale (sin a) vhat)).
Proof. apply vec3_eq; simpl; ring. Qed.

Section CircleSense.

Variable ns : vec3 -> vec3 -> list vec3.

Hypothesis ns_nonempty : forall u v, ns u v <> [].

Hypothesis ns_orthonormal :
  forall u v w, In w (ns u v) -> norm w = 1 /\ dot w u = 0 /\ dot w v = 0.

Lemma Circle3D_interpolate_nth
    (self : Circle3D.t) (count i : nat) (d : vec3) :
  (2 <= count)%nat -> (i < count)%nat ->
  nth i (Circle3D.interpolate ns self count) d
  = Circle3D.point self
      (unitNormalToBoth ns (Circle3D.n self) (Circle3D.n self))
      (cross (Circle3D.n self)
         (unitNormalToBoth ns (Circle3D.n self) (Circle3D.n self)))
      (INR i * (2 * PI / INR (count - 1))).
Proof.
  intros Hc Hi. unfold Circle3D.interpolate.
  rewrite (nth_map_in _ _ _ 0) by (rewrite linspace_length; lia).
  rewrite linspace_nth by lia. f_equal. unfold Rdiv. ring.
Qed.


End CircleSense.


(** ** Rotations keep lengths *)

Lemma dot_lincomb3_self (x y z : R) (u v w : vec3) :
  dot (vadd (vadd (vscale x u) (vscale y v)) (vscale z w))
      (vadd (vadd (vscale x u) (vscale y v)) (vscale z w))
  = x * x * dot u u + y * y * dot v v + z * z * dot w w
    + 2 * (x * y) * dot u v + 2 * (x * z) * dot u w + 2 * (y * z) * dot v w.
Proof. unfold dot, vadd, vscale. simpl. ring. Qed.

Lemma norm_eq_of_dot (a b : vec3) : dot a a = dot b b -> norm a = norm b.
Proof. intros H. unfold norm. f_equal. exact H. Qed.

Lemma Rotation_apply_norm (rot : Rotation.t) (x : vec3) :
  norm (Rotation.apply rot x) = norm x.
Proof.
  unfold Rotation.apply.
  destruct (Rlt_dec 0 (norm (Rotation.as_rotvec rot))) as [Hpos|_];
    [|reflexivity].
  set (ang := norm (Rotation.as_rotvec rot)) in *.
  set (k := vdiv (Rotation.as_rotvec rot) ang).
  assert (Hk : dot k k = 1).
  { rewrite <- norm_sqr. unfold k, ang. rewrite norm_vdiv_self by assumption.
    ring. }
  apply norm_eq_of_dot. rewrite dot_lincomb3_self.
  rewrite dot_cross_cross, Hk.
  replace (dot x (cross k x)) with 0
    by (rewrite dot_comm, dot_cross_r; reflexivity).
  rewrite (dot_cross_l k x), (dot_comm x k).
  pose proof (sin2_cos2 ang) as Hsc. unfold Rsqr in Hsc.
  replace (sin ang * sin ang) with (1 - cos ang * cos ang) by lra.
  ring.
Qed.

(** ** Orthonormal frames *)

Lemma cross_cross_l (a b c : vec3) :
  cross (cross a b) c = vsub (vscale (dot a c) b) (vscale (dot b c) a).
Proof. apply vec3_eq; unfold dot; simpl; ring. Qed.

Lemma cross_cross_r (a b c : vec3) :
  cross a (cross b c) = vsub (vscale (dot a c) b) (vscale (dot a b) c).
Proof. apply vec3_eq; unfold dot; simpl; ring. Qed.

Lemma cross_vscale_r (a x : vec3) (k : R) :
  cross a (vscale k x) = vscale k (cross a x).
Proof. apply vec3_eq; simpl; ring. Qed.

Section Frame.

Variables t n : vec3.
Hypothesis Ht : dot t t = 1.
Hypothesis Hn : dot n n = 1.
Hypothesis Htn : dot t n = 0.

Lemma frame_nb : cross n (cross t n) = t.
Proof.
  rewrite cross_cross_r, Hn, (dot_comm n t), Htn.
  apply vec3_eq; simpl; ring.
Qed.

Lemma frame_bt : cross (cross t n) t = n.
Proof.
  rewrite cross_cross_l, Ht, (dot_comm n t), Htn.
  apply vec3_eq; simpl; ring.
Qed.

Lemma frame_bn : cross (cross t n) n = vneg t.
Proof.
  rewrite cross_cross_l, Hn, Htn. apply vec3_eq; simpl; ring.
Qed.

Lemma frame_tb : cross t (cross t n) = vneg n.
Proof.
  rewrite cross_cross_r, Ht, Htn. apply vec3_eq; simpl; ring.
Qed.

(** The radius vector [- r * n] turned by [th] about [t x n], and the normal
    and tangent that [Arc3D] derives from it. *)
Lemma frame_turned (r th : R) (cts cte endN endT : vec3) :
  0 < r ->
  cts = vscale (- r) n ->
  cte = vadd (vscale (cos th) cts) (vscale (sin th) (cross (cross t n) cts)) ->
  endN = vdiv (vneg cte) r ->
  endT = cross endN (cross t n) ->
  cte = vscale r (vsub (vscale (sin th) t) (vscale (cos th) n)) /\
  endN = vsub (vscale (cos th) n) (vscale (sin th) t) /\
  endT = vadd (vscale (cos th) t) (vscale (sin th) n).
Proof.
  intros Hr Ects Ecte EN ET.
  assert (E1 : cte = vscale r (vsub (vscale (sin th) t) (vscale (cos th) n))).
  { rewrite Ecte, Ects, cross_vscale_r, frame_bn.
    apply vec3_eq; simpl; ring. }
  assert (E2 : endN = vsub (vscale (cos th) n) (vscale (sin th) t)).
  { rewrite EN, E1. apply vec3_eq; simpl; field; lra. }
  split; [exact E1|]. split; [exact E2|].
  rewrite ET, E2.
  replace (cross (vsub (vscale (cos th) n) (vscale (sin th) t)) (cross t n))
    with (vsub (vscale (cos th) (cross n (cross t n)))
               (vscale (sin th) (cross t (cross t n))))
    by (apply vec3_eq; simpl; ring).
  rewrite frame_nb, frame_tb. apply vec3_eq; simpl; ring.
Qed.

Lemma frame_turned_orthonormal (th : R) :
  let endN := vsub (vscale (cos th) n) (vscale (sin th) t) in
  let endT := vadd (vscale (cos th) t) (vscale (sin th) n) in
  norm endT = 1 /\ norm endN = 1 /\ dot endT endN = 0 /\
  cross endT endN = cross t n.
Proof.
  intros endN endT.
  pose proof (sin2_cos2 th) as Hsc. unfold Rsqr in Hsc.
  assert (D1 : dot endT endT = 1).
  { unfold endT. rewrite dot_lincomb_self, Ht, Hn, Htn. nra. }
  assert (D2 : dot endN endN = 1).
  { replace (dot endN endN)
      with (cos th * cos th * dot n n + sin th * sin th * dot t t
            - 2 * (cos th * sin th) * dot t n)
      by (unfold endN, dot; simpl; ring).
    rewrite Ht, Hn, Htn. nra. }
  repeat split.
  - apply norm_unit, D1.
  - apply norm_unit, D2.
  - replace (dot endT endN)
      with (cos th * sin th * (dot n n - dot t t)
            + (cos th * cos th - sin th * sin th) * dot t n)
      by (unfold endT, endN, dot; simpl; ring).
    rewrite Ht, Hn, Htn. ring.
  - replace (cross endT endN)
      with (vscale (cos th * cos th + sin th * sin th) (cross t n))
      by (unfold endT, endN; apply vec3_eq; simpl; ring).
    replace (cos th * cos th + sin th * sin th) with 1 by lra.
    apply vec3_eq; simpl; ring.
Qed.

End Frame.

(** ** [Arc3D]: the derived fields *)

Lemma Arc3D_init_fields_end (c s d : vec3) (th : R) (arc : Arc3D.t) :
  Arc3D.init c s d th = Some arc ->
  Arc3D.startTangent arc = vdiv d (norm d) /\
  Arc3D.centerToStart arc = vsub s c /\
  Arc3D.centerToEnd arc
  = Rotation.apply (Rotation.from_rotvec
                      (vscale th (Arc3D.binormal arc))) (vsub s c) /\
  Arc3D.endPoint arc = vadd c (Arc3D.centerToEnd arc) /\
  Arc3D.endNormal arc = vdiv (vneg (Arc3D.centerToEnd arc)) (norm (vsub s c)) /\
  Arc3D.endTangent arc = cross (Arc3D.endNormal arc) (Arc3D.binormal arc).
Proof.
  unfold Arc3D.init.
  destruct (Rlt_dec 0 (norm (vsub s c))) as [H1|H1]; [|discriminate].
  destruct (Rlt_dec (Rabs (dot d (vsub s c))) (1 / 1000000)) as [H2|H2];
    [|discriminate].
  intros E. injection E as <-. cbn. repeat split; reflexivity.
Qed.

Lemma vsub_vadd_cancel (c x : vec3) : vsub (vadd c x) c = x.
Proof. apply vec3_eq; simpl; ring. Qed.

Lemma norm_vdiv (a : vec3) (r : R) : 0 < r -> norm (vdiv a r) = norm a / r.
Proof.
  intros Hr. rewrite vdiv_vscale, norm_vscale, Rabs_right.
  - unfold Rdiv. ring.
  - left. apply Rinv_0_lt_compat. assumption.
Qed.

(** X11: for every [Arc3D] constructed with a [startDir] that is not zero
    (orthogonal to the radius vector within the tolerance only), the radius
    is positive and is the distance from the center to the start point and
    to the derived end point; the start tangent, the start normal and the
    end normal are unit vectors; and each normal points from its point to
    the center: point + r * normal = center. *)
Theorem Arc3D_ends_on_circle (c s d : vec3) (th : R) :
  s <> c -> Rabs (dot d (vsub s c)) < 1 / 1000000 -> d <> vzero ->
  exists arc,
    Arc3D.init c s d th = Some arc /\
    0 < Arc3D.r arc /\
    norm (vsub s c) = Arc3D.r arc /\
    norm (vsub (Arc3D.endPoint arc) c) = Arc3D.r arc /\
    norm (Arc3D.startTangent arc) = 1 /\
    norm (Arc3D.startNormal arc) = 1 /\
    norm (Arc3D.endNormal arc) = 1 /\
    vadd s (vscale (Arc3D.r arc) (Arc3D.startNormal arc)) = c /\
    vadd (Arc3D.endPoint arc) (vscale (Arc3D.r arc) (Arc3D.endNormal arc)) = c.
Proof.
  intros NE Htol Hd.
  destruct (Arc3D_init_some c s d th) as [arc Hi];
    [apply norm_pos_neq; assumption | assumption |].
  exists arc. split; [exact Hi|].
  pose proof (Arc3D_init_fields c s d th arc Hi) as F. cbv zeta in F.
  destruct F as (Hr & _ & _ & _ & _ & Er & En & _ & _).
  destruct (Arc3D_init_fields_end c s d th arc Hi)
    as (Et & _ & Ecte & Eep & Een & _).
  assert (Hcte : norm (Arc3D.centerToEnd arc) = norm (vsub s c))
    by (rewrite Ecte; apply Rotation_apply_norm).
  rewrite Er, En, Et, Eep, Een.
  set (rad := norm (vsub s c)) in *.
  repeat split.
  - assumption.
  - rewrite vsub_vadd_cancel. assumption.
  - apply norm_vdiv_self, norm_pos_nonzero. assumption.
  - rewrite norm_vdiv, norm_vneg by assumption. fold rad. field. lra.
  - rewrite norm_vdiv, norm_vneg, Hcte by assumption. field. lra.
  - apply vec3_eq; simpl; field; lra.
  - apply vec3_eq; simpl; field; lra.
Qed.

Lemma quarter_start_ne_center : mkVec 1 0 0 <> vzero.
Proof. exact vec_100_nonzero. Qed.

Lemma quarter_dot_zero : dot (mkVec 0 0 1) (vsub (mkVec 1 0 0) vzero) = 0.
Proof. unfold dot. simpl. ring. Qed.

Lemma quarter_within_tolerance :
  Rabs (dot (mkVec 0 0 1) (vsub (mkVec 1 0 0) vzero)) < 1 / 1000000.
Proof. rewrite quarter_dot_zero, Rabs_R0. lra. Qed.

Lemma Arc3D_ends_on_circle_witness :
  exists arc,
    Arc3D.init vzero (mkVec 1 0 0) (mkVec 0 0 1) (PI / 2) = Some arc /\
    0 < Arc3D.r arc /\
    norm (vsub (mkVec 1 0 0) vzero) = Arc3D.r arc /\
    norm (vsub (Arc3D.endPoint arc) vzero) = Arc3D.r arc /\
    norm (Arc3D.startTangent arc) = 1 /\
    norm (Arc3D.startNormal arc) = 1 /\
    norm (Arc3D.endNormal arc) = 1 /\
    vadd (mkVec 1 0 0) (vscale (Arc3D.r arc) (Arc3D.startNormal arc)) = vzero /\
    vadd (Arc3D.endPoint arc) (vscale (Arc3D.r arc) (Arc3D.endNormal arc))
    = vzero.
Proof.
  exact (Arc3D_ends_on_circle vzero (mkVec 1 0 0) (mkVec 0 0 1) (PI / 2)
           quarter_start_ne_center quarter_within_tolerance vec_001_nonzero).
Defined.

(** ** [Arc3D] with a start direction orthogonal to the radius vector *)

Section ExactArc.

Variables c s d : vec3.
Hypothesis Hsc : s <> c.
Hypothesis Hd : d <> vzero.
Hypothesis Ho : dot d (vsub s c) = 0.

Local Abbreviation rad0 := (norm (vsub s c)).
Local Abbreviation tan0 := (vdiv d (norm d)).
Local Abbreviation nor0 := (vdiv (vneg (vsub s c)) (norm (vsub s c))).

Lemma exact_rad_pos : 0 < rad0.
Proof. apply norm_pos_neq. exact Hsc. Qed.

Lemma exact_within_tolerance : Rabs (dot d (vsub s c)) < 1 / 1000000.
Proof. rewrite Ho, Rabs_R0. lra. Qed.

Lemma exact_constructed (th : R) : exists arc, Arc3D.init c s d th = Some arc.
Proof.
  apply Arc3D_init_some; [exact exact_rad_pos | exact exact_within_tolerance].
Qed.

Lemma exact_tan_unit : dot tan0 tan0 = 1.
Proof.
  rewrite <- norm_sqr, norm_vdiv_self; [ring|].
  apply norm_pos_nonzero. exact Hd.
Qed.

Lemma exact_nor_unit : dot nor0 nor0 = 1.
Proof.
  rewrite <- norm_sqr. rewrite <- (norm_vneg (vsub s c)).
  rewrite norm_vdiv_self; [ring|]. rewrite norm_vneg. exact exact_rad_pos.
Qed.

Lemma exact_tan_nor : dot tan0 nor0 = 0.
Proof.
  rewrite dot_vdiv_l, dot_vdiv_r.
  replace (dot d (vneg (vsub s c))) with (- dot d (vsub s c))
    by (unfold dot; simpl; ring).
  rewrite Ho. unfold Rdiv. ring.
Qed.

Lemma exact_radius_vector : vsub s c = vscale (- rad0) nor0.
Proof.
  pose proof exact_rad_pos as Hr. apply vec3_eq; simpl; field; lra.
Qed.

(** The derived fields of the arc, in the frame of its start tangent and
    start normal. *)
Lemma exact_fields (th : R) (arc : Arc3D.t) :
  Arc3D.init c s d th = Some arc ->
  Arc3D.r arc = rad0 /\
  Arc3D.startTangent arc = tan0 /\
  Arc3D.startNormal arc = nor0 /\
  Arc3D.binormal arc = cross tan0 nor0 /\
  Arc3D.endPoint arc
  = vadd c (vscale rad0 (vsub (vscale (sin th) tan0) (vscale (cos th) nor0))) /\
  Arc3D.endNormal arc = vsub (vscale (cos th) nor0) (vscale (sin th) tan0) /\
  Arc3D.endTangent arc = vadd (vscale (cos th) tan0) (vscale (sin th) nor0).
Proof.
  intros Hi.
  pose proof (Arc3D_init_fields c s d th arc Hi) as F. cbv zeta in F.
  destruct F as (Hr & _ & _ & _ & _ & Er & En & Eb & _).
  destruct (Arc3D_init_fields_end c s d th arc Hi)
    as (Et & _ & Ecte & Eep & Een & Eet).
  destruct (Arc3D_binormal_exact c s d Hr Hd Ho) as [Hb1 Hb2].
  cbv zeta in Hb1, Hb2.
  rewrite Eb in Ecte, Eet.
  rewrite Rotation_apply_orthogonal in Ecte by assumption.
  destruct (frame_turned tan0 nor0 exact_tan_unit exact_nor_unit exact_tan_nor
              rad0 th (vsub s c) (Arc3D.centerToEnd arc)
              (Arc3D.endNormal arc) (Arc3D.endTangent arc)
              Hr exact_radius_vector Ecte Een Eet) as (E1 & E2 & E3).
  rewrite Eep, E1.
  repeat split; assumption.
Qed.

(** X12: the start tangent, the start normal and the binormal of an arc
    whose [startDir] is not zero and is orthogonal to the radius vector are
    unit vectors, orthogonal to each other, and form a right-handed frame:
    tangent x normal = binormal, normal x binormal = tangent,
    binormal x tangent = normal. *)
Theorem Arc3D_start_frame (th : R) :
  exists arc,
    Arc3D.init c s d th = Some arc /\
    norm (Arc3D.startTangent arc) = 1 /\
    norm (Arc3D.startNormal arc) = 1 /\
    norm (Arc3D.binormal arc) = 1 /\
    dot (Arc3D.startTangent arc) (Arc3D.startNormal arc) = 0 /\
    dot (Arc3D.startTangent arc) (Arc3D.binormal arc) = 0 /\
    dot (Arc3D.startNormal arc) (Arc3D.binormal arc) = 0 /\
    cross (Arc3D.startTangent arc) (Arc3D.startNormal arc)
    = Arc3D.binormal arc /\
    cross (Arc3D.startNormal arc) (Arc3D.binormal arc)
    = Arc3D.startTangent arc /\
    cross (Arc3D.binormal arc) (Arc3D.startTangent arc)
    = Arc3D.startNormal arc.
Proof.
  destruct (exact_constructed th) as [arc Hi]. exists arc.
  split; [exact Hi|].
  destruct (exact_fields th arc Hi) as (_ & Et & En & Eb & _).
  rewrite Eb, Et, En.
  pose proof exact_tan_unit as Ht. pose proof exact_nor_unit as Hn.
  pose proof exact_tan_nor as Htn.
  repeat split.
  - apply norm_unit, Ht.
  - apply norm_unit, Hn.
  - apply norm_unit. rewrite dot_cross_cross, Ht, Hn, Htn. ring.
  - exact Htn.
  - rewrite dot_comm. apply dot_cross_l.
  - rewrite dot_comm. apply dot_cross_r.
  - apply frame_nb; assumption.
  - apply frame_bt; assumption.
Qed.

(** X13: the end frame of such an arc is its start frame turned by [theta]
    about the binormal: endTangent = cos theta * startTangent + sin theta *
    startNormal and endNormal = cos theta * startNormal - sin theta *
    startTangent; they are unit vectors, orthogonal to each other and to the
    binormal, and endTangent x endNormal = binormal. *)
Theorem Arc3D_end_frame (th : R) :
  exists arc,
    Arc3D.init c s d th = Some arc /\
    Arc3D.endTangent arc
    = vadd (vscale (cos th) (Arc3D.startTangent arc))
           (vscale (sin th) (Arc3D.startNormal arc)) /\
    Arc3D.endNormal arc
    = vsub (vscale (cos th) (Arc3D.startNormal arc))
           (vscale (sin th) (Arc3D.startTangent arc)) /\
    norm (Arc3D.endTangent arc) = 1 /\
    norm (Arc3D.endNormal arc) = 1 /\
    dot (Arc3D.endTangent arc) (Arc3D.endNormal arc) = 0 /\
    dot (Arc3D.endTangent arc) (Arc3D.binormal arc) = 0 /\
    dot (Arc3D.endNormal arc) (Arc3D.binormal arc) = 0 /\
    cross (Arc3D.endTangent arc) (Arc3D.endNormal arc) = Arc3D.binormal arc.
Proof.
  destruct (exact_constructed th) as [arc Hi]. exists arc.
  split; [exact Hi|].
  destruct (exact_fields th arc Hi) as (_ & Et & En & Eb & _ & EeN & EeT).
  rewrite EeT, EeN, Eb, Et, En.
  destruct (frame_turned_orthonormal tan0 nor0 exact_tan_unit exact_nor_unit
              exact_tan_nor th) as (H1 & H2 & H3 & H4).
  cbv zeta in H1, H2, H3, H4.
  repeat split; try assumption.
  - unfold dot, cross, vadd, vscale. simpl. ring.
  - unfold dot, cross, vsub, vscale. simpl. ring.
Qed.

(** X14: every point returned by [interpolate], for every [count], lies on
    the circle of the arc: at distance [r] of the center, in the plane
    through the center orthogonal to the binormal. *)
Theorem Arc3D_samples_on_circle (th : R) :
  exists arc,
    Arc3D.init c s d th = Some arc /\
    forall count p, In p (Arc3D.interpolate arc count) ->
      norm (vsub p c) = Arc3D.r arc /\
      dot (vsub p c) (Arc3D.binormal arc) = 0.
Proof.
  destruct (exact_constructed th) as [arc Hi]. exists arc.
  split; [exact Hi|].
  intros count p Hp. unfold Arc3D.interpolate in Hp.
  apply in_map_iff in Hp. destruct Hp as (a & <- & _).
  rewrite (Arc3D_point_formula c s d th arc a Hi), vsub_vadd_cancel.
  destruct (exact_fields th arc Hi) as (Er & _ & _ & Eb & _).
  rewrite Er, Eb.
  pose proof exact_rad_pos as Hr.
  destruct (frame_turned tan0 nor0 exact_tan_unit exact_nor_unit exact_tan_nor
              rad0 a (vsub s c) _ _ _ Hr exact_radius_vector
              eq_refl eq_refl eq_refl) as (E1 & _ & _).
  rewrite E1. split.
  - rewrite norm_vscale, Rabs_right by lra.
    replace (vsub (vscale (sin a) tan0) (vscale (cos a) nor0))
      with (vadd (vscale (sin a) tan0) (vscale (- cos a) nor0))
      by (apply vec3_eq; simpl; ring).
    rewrite (norm_unit (vadd _ _)); [ring|].
    rewrite dot_lincomb_self, exact_tan_unit, exact_nor_unit, exact_tan_nor.
    pose proof (sin2_cos2 a) as Hsc'. unfold Rsqr in Hsc'. nra.
  - unfold dot, cross, vsub, vscale. simpl. ring.
Qed.


(** X16: a half turn ends at the point opposite to the start point, with
    the tangent reversed; a full turn ends at the start point, with the
    start tangent and the start normal. *)
Theorem Arc3D_half_and_full_turn :
  (exists arc,
     Arc3D.init c s d PI = Some arc /\
     Arc3D.endPoint arc = vsub (vscale 2 c) s /\
     Arc3D.endTangent arc = vneg (Arc3D.startTangent arc) /\
     Arc3D.endNormal arc = vneg (Arc3D.startNormal arc)) /\
  (exists arc,
     Arc3D.init c s d (2 * PI) = Some arc /\
     Arc3D.endPoint arc = s /\
     Arc3D.endTangent arc = Arc3D.startTangent arc /\
     Arc3D.endNormal arc = Arc3D.startNormal arc).
Proof.
  pose proof exact_rad_pos as Hr.
  pose proof (norm_pos_nonzero d Hd) as Hnd. split.
  - destruct (exact_constructed PI) as [arc Hi]. exists arc.
    split; [exact Hi|].
    destruct (exact_fields PI arc Hi) as (_ & Et & En & _ & Ep & EeN & EeT).
    rewrite Ep, EeN, EeT, Et, En, cos_PI, sin_PI.
    repeat split; apply vec3_eq; simpl; field; repeat split; lra.
  - destruct (exact_constructed (2 * PI)) as [arc Hi]. exists arc.
    split; [exact Hi|].
    destruct (exact_fields (2 * PI) arc Hi)
      as (_ & Et & En & _ & Ep & EeN & EeT).
    rewrite Ep, EeN, EeT, Et, En, cos_2PI, sin_2PI.
    repeat split; apply vec3_eq; simpl; field; repeat split; lra.
Qed.

(** X17: the samples are the end points of the partial arcs: for
    [count >= 2], the sample of index [i] of the arc of sweep [theta] is the
    derived end point of the arc with the same center, start point and start
    direction and the sweep [i * theta / (count - 1)]. *)
Theorem Arc3D_samples_are_partial_ends (th : R) (count i : nat) :
  (2 <= count)%nat -> (i < count)%nat ->
  exists arc part,
    Arc3D.init c s d th = Some arc /\
    Arc3D.init c s d (INR i * (th / INR (count - 1))) = Some part /\
    forall dflt,
      nth i (Arc3D.interpolate arc count) dflt = Arc3D.endPoint part.
Proof.
  intros Hc Hi.
  destruct (exact_constructed th) as [arc Ha].
  destruct (exact_constructed (INR i * (th / INR (count - 1)))) as [part Hp].
  exists arc, part. split; [exact Ha|]. split; [exact Hp|].
  intros dflt. rewrite Arc3D_interpolate_nth by assumption.
  rewrite (Arc3D_point_formula c s d th arc _ Ha).
  rewrite (Arc3D_endPoint_exact c s d _ part Hp Hd Ho).
  pose proof (Arc3D_init_fields c s d th arc Ha) as F. cbv zeta in F.
  destruct F as (_ & _ & _ & _ & Eth & _ & _ & Eb & _).
  pose proof (Arc3D_init_fields c s d _ part Hp) as F'. cbv zeta in F'.
  destruct F' as (_ & _ & _ & _ & _ & _ & _ & Eb' & _).
  rewrite Eth, Eb, Eb'. reflexivity.
Qed.

End ExactArc.

(** The quarter arc about the origin from (1,0,0) towards (0,0,1), as an
    instance of the theorems above. *)

Lemma Arc3D_start_frame_witness :
  exists arc,
    Arc3D.init vzero (mkVec 1 0 0) (mkVec 0 0 1) (PI / 2) = Some arc /\
    norm (Arc3D.startTangent arc) = 1 /\
    norm (Arc3D.startNormal arc) = 1 /\
    norm (Arc3D.binormal arc) = 1 /\
    dot (Arc3D.startTangent arc) (Arc3D.startNormal arc) = 0 /\
    dot (Arc3D.startTangent arc) (Arc3D.binormal arc) = 0 /\
    dot (Arc3D.startNormal arc) (Arc3D.binormal arc) = 0 /\
    cross (Arc3D.startTangent arc) (Arc3D.startNormal arc)
    = Arc3D.binormal arc /\
    cross (Arc3D.startNormal arc) (Arc3D.binormal arc)
    = Arc3D.startTangent arc /\
    cross (Arc3D.binormal arc) (Arc3D.startTangent arc)
    = Arc3D.startNormal arc.
Proof.
  exact (Arc3D_start_frame vzero (mkVec 1 0 0) (mkVec 0 0 1)
           quarter_start_ne_center vec_001_nonzero quarter_dot_zero (PI / 2)).
Defined.

Lemma Arc3D_end_frame_witness :
  exists arc,
    Arc3D.init vzero (mkVec 1 0 0) (mkVec 0 0 1) (PI / 2) = Some arc /\
    Arc3D.endTangent arc
    = vadd (vscale (cos (PI / 2)) (Arc3D.startTangent arc))
           (vscale (sin (PI / 2)) (Arc3D.startNormal arc)) /\
    Arc3D.endNormal arc
    = vsub (vscale (cos (PI / 2)) (Arc3D.startNormal arc))
           (vscale (sin (PI / 2)) (Arc3D.startTangent arc)) /\
    norm (Arc3D.endTangent arc) = 1 /\
    norm (Arc3D.endNormal arc) = 1 /\
    dot (Arc3D.endTangent arc) (Arc3D.endNormal arc) = 0 /\
    dot (Arc3D.endTangent arc) (Arc3D.binormal arc) = 0 /\
    dot (Arc3D.endNormal arc) (Arc3D.binormal arc) = 0 /\
    cross (Arc3D.endTangent arc) (Arc3D.endNormal arc) = Arc3D.binormal arc.
Proof.
  exact (Arc3D_end_frame vzero (mkVec 1 0 0) (mkVec 0 0 1)
           quarter_start_ne_center vec_001_nonzero quarter_dot_zero (PI / 2)).
Defined.

Lemma Arc3D_samples_on_circle_witness :
  exists arc,
    Arc3D.init vzero (mkVec 1 0 0) (mkVec 0 0 1) (PI / 2) = Some arc /\
    forall count p, In p (Arc3D.interpolate arc count) ->
      norm (vsub p vzero) = Arc3D.r arc /\
      dot (vsub p vzero) (Arc3D.binormal arc) = 0.
Proof.
  exact (Arc3D_samples_on_circle vzero (mkVec 1 0 0) (mkVec 0 0 1)
           quarter_start_ne_center vec_001_nonzero quarter_dot_zero (PI / 2)).
Defined.


Lemma Arc3D_half_and_full_turn_witness :
  (exists arc,
     Arc3D.init vzero (mkVec 1 0 0) (mkVec 0 0 1) PI = Some arc /\
     Arc3D.endPoint arc = vsub (vscale 2 vzero) (mkVec 1 0 0) /\
     Arc3D.endTangent arc = vneg (Arc3D.startTangent arc) /\
     Arc3D.endNormal arc = vneg (Arc3D.startNormal arc)) /\
  (exists arc,
     Arc3D.init vzero (mkVec 1 0 0) (mkVec 0 0 1) (2 * PI) = Some arc /\
     Arc3D.endPoint arc = mkVec 1 0 0 /\
     Arc3D.endTangent arc = Arc3D.startTangent arc /\
     Arc3D.endNormal arc = Arc3D.startNormal arc).
Proof.
  exact (Arc3D_half_and_full_turn vzero (mkVec 1 0 0) (mkVec 0 0 1)
           quarter_start_ne_center vec_001_nonzero quarter_dot_zero).
Defined.

Lemma Arc3D_samples_are_partial_ends_witness :
  exists arc part,
    Arc3D.init vzero (mkVec 1 0 0) (mkVec 0 0 1) (PI / 2) = Some arc /\
    Arc3D.init vzero (mkVec 1 0 0) (mkVec 0 0 1)
      (INR 1 * (PI / 2 / INR (3 - 1))) = Some part /\
    forall dflt,
      nth 1 (Arc3D.interpolate arc 3) dflt = Arc3D.endPoint part.
Proof.
  apply (Arc3D_samples_are_partial_ends vzero (mkVec 1 0 0) (mkVec 0 0 1)
           quarter_start_ne_center vec_001_nonzero quarter_dot_zero
           (PI / 2) 3 1); lia.
Defined.

(** ** [Arc3D]: arcs that continue, reversed arcs, arcs of sweep 0 *)

Lemma dot_vscale_r (a b : vec3) (k : R) : dot a (vscale k b) = k * dot a b.
Proof. unfold dot, vscale. simpl. ring. Qed.

(** X18: arcs compose.  The arc that starts at the derived end point of a
    first arc, in the direction of its derived end tangent, about the same
    center, is constructed (its start direction is orthogonal to its radius
    vector); it has the radius and the binormal of the first arc, and after
    a sweep [theta2] it ends where the arc of sweep [theta1 + theta2] from
    the first start point ends, with the same end tangent and end normal. *)
Theorem Arc3D_compose (c s d : vec3) (th1 th2 : R) :
  s <> c -> d <> vzero -> dot d (vsub s c) = 0 ->
  exists arc1 arc2 arc12,
    Arc3D.init c s d th1 = Some arc1 /\
    Arc3D.init c (Arc3D.endPoint arc1) (Arc3D.endTangent arc1) th2
    = Some arc2 /\
    Arc3D.init c s d (th1 + th2) = Some arc12 /\
    Arc3D.r arc2 = Arc3D.r arc1 /\
    Arc3D.binormal arc2 = Arc3D.binormal arc1 /\
    Arc3D.endPoint arc2 = Arc3D.endPoint arc12 /\
    Arc3D.endTangent arc2 = Arc3D.endTangent arc12 /\
    Arc3D.endNormal arc2 = Arc3D.endNormal arc12.
Proof.
  intros Hsc Hd Ho.
  destruct (exact_constructed c s d Hsc Ho th1) as [arc1 H1].
  destruct (exact_constructed c s d Hsc Ho (th1 + th2)) as [arc12 H12].
  destruct (exact_fields c s d Hsc Hd Ho th1 arc1 H1)
    as (Er1 & _ & _ & Eb1 & Ep1 & EN1 & ET1).
  destruct (exact_fields c s d Hsc Hd Ho (th1 + th2) arc12 H12)
    as (_ & _ & _ & _ & Ep12 & EN12 & ET12).
  pose proof (exact_rad_pos c s Hsc) as Hr.
  pose proof (exact_tan_unit d Hd) as Ht.
  pose proof (exact_nor_unit c s Hsc) as Hn.
  pose proof (exact_tan_nor c s d Ho) as Htn.
  destruct (frame_turned_orthonormal _ _ Ht Hn Htn th1) as (B1 & B2 & B3 & B4).
  cbv zeta in B1, B2, B3, B4.
  rewrite <- ET1 in B1, B3, B4. rewrite <- EN1 in B2, B3, B4.
  set (rad := norm (vsub s c)) in *.
  assert (A : vsub (Arc3D.endPoint arc1) c
              = vscale (- rad) (Arc3D.endNormal arc1)).
  { rewrite Ep1, EN1, vsub_vadd_cancel. apply vec3_eq; simpl; ring. }
  assert (C : norm (vsub (Arc3D.endPoint arc1) c) = rad).
  { rewrite A, norm_vscale, B2, Rabs_Ropp, Rabs_right; lra. }
  assert (Hsc2 : Arc3D.endPoint arc1 <> c).
  { apply norm_pos_neq. rewrite C. exact Hr. }
  assert (Hd2 : Arc3D.endTangent arc1 <> vzero)
    by (apply norm_one_nonzero; exact B1).
  assert (Ho2 : dot (Arc3D.endTangent arc1) (vsub (Arc3D.endPoint arc1) c) = 0).
  { rewrite A, dot_vscale_r, B3. ring. }
  destruct (exact_constructed c _ _ Hsc2 Ho2 th2) as [arc2 H2].
  destruct (exact_fields c _ _ Hsc2 Hd2 Ho2 th2 arc2 H2)
    as (Er2 & _ & _ & Eb2 & Ep2 & EN2 & ET2).
  assert (T2 : vdiv (Arc3D.endTangent arc1) (norm (Arc3D.endTangent arc1))
               = Arc3D.endTangent arc1)
    by (rewrite B1; apply vdiv_one).
  assert (N2 : vdiv (vneg (vsub (Arc3D.endPoint arc1) c))
                    (norm (vsub (Arc3D.endPoint arc1) c))
               = Arc3D.endNormal arc1).
  { rewrite C, A. apply vec3_eq; simpl; field; lra. }
  rewrite T2, N2 in Eb2, Ep2, EN2, ET2. rewrite C in Er2, Ep2.
  exists arc1, arc2, arc12.
  split; [exact H1|]. split; [exact H2|]. split; [exact H12|].
  split; [rewrite Er1; exact Er2|].
  split; [rewrite Eb2, B4; symmetry; exact Eb1|].
  rewrite Ep2, EN2, ET2, Ep12, EN12, ET12, ET1, EN1.
  rewrite sin_plus, cos_plus.
  fold rad.
  generalize (vdiv d (norm d)) (vdiv (vneg (vsub s c)) rad). intros t n.
  repeat split; apply vec3_eq; simpl; ring.
Qed.

Lemma Arc3D_compose_witness :
  exists arc1 arc2 arc12,
    Arc3D.init vzero (mkVec 1 0 0) (mkVec 0 0 1) (PI / 2) = Some arc1 /\
    Arc3D.init vzero (Arc3D.endPoint arc1) (Arc3D.endTangent arc1) (PI / 2)
    = Some arc2 /\
    Arc3D.init vzero (mkVec 1 0 0) (mkVec 0 0 1) (PI / 2 + PI / 2)
    = Some arc12 /\
    Arc3D.r arc2 = Arc3D.r arc1 /\
    Arc3D.binormal arc2 = Arc3D.binormal arc1 /\
    Arc3D.endPoint arc2 = Arc3D.endPoint arc12 /\
    Arc3D.endTangent arc2 = Arc3D.endTangent arc12 /\
    Arc3D.endNormal arc2 = Arc3D.endNormal arc12.
Proof.
  exact (Arc3D_compose vzero (mkVec 1 0 0) (mkVec 0 0 1) (PI / 2) (PI / 2)
           quarter_start_ne_center vec_001_nonzero quarter_dot_zero).
Defined.

Lemma linspace_opp (x : R) (num : nat) :
  linspace 0 (- x) num = map Ropp (linspace 0 x num).
Proof.
  destruct num as [|[|k]].
  - reflexivity.
  - simpl. rewrite Ropp_0. reflexivity.
  - unfold linspace. rewrite map_app, map_map. simpl map at 3.
    f_equal. apply map_ext. intros i.
    assert (Hk : INR (S k) <> 0) by (apply not_0_INR; lia).
    field. assumption.
Qed.

Lemma linspace_constant (x : R) (num : nat) (a : R) :
  In a (linspace x x num) -> a = x.
Proof.
  destruct num as [|[|k]]; simpl.
  - intros [].
  - intros [E|[]]. symmetry. exact E.
  - intros [E|H].
    + rewrite <- E. unfold Rminus. rewrite Rplus_opp_r. unfold Rdiv. ring.
    + apply in_app_or in H. destruct H as [H|[E|[]]]; [|symmetry; exact E].
      apply in_map_iff in H. destruct H as (i & E & _). rewrite <- E.
      unfold Rminus. rewrite Rplus_opp_r. unfold Rdiv. ring.
Qed.

Lemma tolerance_vneg (c s d : vec3) :
  Rabs (dot d (vsub s c)) < 1 / 1000000 ->
  Rabs (dot (vneg d) (vsub s c)) < 1 / 1000000.
Proof.
  intros H.
  replace (dot (vneg d) (vsub s c)) with (- dot d (vsub s c))
    by (unfold dot; simpl; ring).
  rewrite Rabs_Ropp. exact H.
Qed.

(** X19: reversing both the start direction and the sign of the sweep gives
    the same arc, described with the opposite binormal: the same derived end
    point and end normal, the opposite end tangent, and the same samples for
    every [count]. *)
Theorem Arc3D_reversed (c s d : vec3) (th : R) :
  s <> c -> Rabs (dot d (vsub s c)) < 1 / 1000000 -> d <> vzero ->
  exists arc rev,
    Arc3D.init c s d th = Some arc /\
    Arc3D.init c s (vneg d) (- th) = Some rev /\
    Arc3D.binormal rev = vneg (Arc3D.binormal arc) /\
    Arc3D.endPoint rev = Arc3D.endPoint arc /\
    Arc3D.endNormal rev = Arc3D.endNormal arc /\
    Arc3D.endTangent rev = vneg (Arc3D.endTangent arc) /\
    forall count, Arc3D.interpolate rev count = Arc3D.interpolate arc count.
Proof.
  intros Hsc Htol Hd.
  assert (Hr : 0 < norm (vsub s c)) by (apply norm_pos_neq; exact Hsc).
  destruct (Arc3D_init_some c s d th Hr Htol) as [arc Ha].
  destruct (Arc3D_init_some c s (vneg d) (- th) Hr (tolerance_vneg c s d Htol))
    as [rev Hv].
  exists arc, rev. split; [exact Ha|]. split; [exact Hv|].
  pose proof (Arc3D_init_fields c s d th arc Ha) as F. cbv zeta in F.
  destruct F as (_ & _ & Ec & _ & Eth & Er & En & Eb & _).
  pose proof (Arc3D_init_fields c s (vneg d) (- th) rev Hv) as F'.
  cbv zeta in F'.
  destruct F' as (_ & _ & Ec' & _ & Eth' & Er' & En' & Eb' & _).
  destruct (Arc3D_init_fields_end c s d th arc Ha)
    as (_ & _ & Ecte & Eep & Een & Eet).
  destruct (Arc3D_init_fields_end c s (vneg d) (- th) rev Hv)
    as (_ & _ & Ecte' & Eep' & Een' & Eet').
  assert (B : Arc3D.binormal rev = vneg (Arc3D.binormal arc)).
  { rewrite Eb', Eb, norm_vneg, vdiv_vneg. apply vec3_eq; simpl; ring. }
  assert (Cte : Arc3D.centerToEnd rev = Arc3D.centerToEnd arc).
  { rewrite Ecte', Ecte, B.
    replace (vscale (- th) (vneg (Arc3D.binormal arc)))
      with (vscale th (Arc3D.binormal arc)) by (apply vec3_eq; simpl; ring).
    reflexivity. }
  assert (EN : Arc3D.endNormal rev = Arc3D.endNormal arc)
    by (rewrite Een', Een, Cte; reflexivity).
  split; [exact B|].
  split; [rewrite Eep', Eep, Cte; reflexivity|].
  split; [exact EN|].
  split; [rewrite Eet', Eet, EN, B; apply vec3_eq; simpl; ring|].
  intros count. unfold Arc3D.interpolate.
  rewrite Eth', Eth, linspace_opp, map_map. apply map_ext. intros a.
  unfold Arc3D.point. rewrite Ec', Ec, Er', Er, En', En, B, cos_neg, sin_neg.
  apply vec3_eq; simpl; ring.
Qed.

Lemma Arc3D_reversed_witness :
  exists arc rev,
    Arc3D.init vzero (mkVec 1 0 0) (mkVec 0 0 1) (PI / 2) = Some arc /\
    Arc3D.init vzero (mkVec 1 0 0) (vneg (mkVec 0 0 1)) (- (PI / 2))
    = Some rev /\
    Arc3D.binormal rev = vneg (Arc3D.binormal arc) /\
    Arc3D.endPoint rev = Arc3D.endPoint arc /\
    Arc3D.endNormal rev = Arc3D.endNormal arc /\
    Arc3D.endTangent rev = vneg (Arc3D.endTangent arc) /\
    forall count, Arc3D.interpolate rev count = Arc3D.interpolate arc count.
Proof.
  exact (Arc3D_reversed vzero (mkVec 1 0 0) (mkVec 0 0 1) (PI / 2)
           quarter_start_ne_center quarter_within_tolerance vec_001_nonzero).
Defined.

(** X20: an arc of sweep 0 stays at its start point: the derived end point
    is the start point, the end normal is the start normal, and every
    sample, for every [count], is the start point. *)
Theorem Arc3D_zero_sweep (c s d : vec3) :
  s <> c -> Rabs (dot d (vsub s c)) < 1 / 1000000 -> d <> vzero ->
  exists arc,
    Arc3D.init c s d 0 = Some arc /\
    Arc3D.endPoint arc = s /\
    Arc3D.endNormal arc = Arc3D.startNormal arc /\
    forall count p, In p (Arc3D.interpolate arc count) -> p = s.
Proof.
  intros Hsc Htol Hd.
  assert (Hr : 0 < norm (vsub s c)) by (apply norm_pos_neq; exact Hsc).
  destruct (Arc3D_init_some c s d 0 Hr Htol) as [arc Ha].
  exists arc. split; [exact Ha|].
  pose proof (Arc3D_init_fields c s d 0 arc Ha) as F. cbv zeta in F.
  destruct F as (_ & _ & _ & _ & Eth & _ & En & _ & _).
  destruct (Arc3D_init_fields_end c s d 0 arc Ha)
    as (_ & _ & Ecte & Eep & Een & _).
  assert (Cte : Arc3D.centerToEnd arc = vsub s c).
  { rewrite Ecte. unfold Rotation.apply. cbn [Rotation.as_rotvec].
    rewrite norm_vscale, Rabs_R0, Rmult_0_l.
    destruct (Rlt_dec 0 0); [lra|reflexivity]. }
  split; [rewrite Eep, Cte; apply vec3_eq; simpl; ring|].
  split; [rewrite Een, Cte, En; reflexivity|].
  intros count p Hp. unfold Arc3D.interpolate in Hp.
  apply in_map_iff in Hp. destruct Hp as (a & <- & Hin).
  rewrite Eth in Hin. apply linspace_constant in Hin. subst a.
  rewrite (Arc3D_point_formula c s d 0 arc 0 Ha), cos_0, sin_0.
  apply vec3_eq; simpl; ring.
Qed.

Lemma Arc3D_zero_sweep_witness :
  exists arc,
    Arc3D.init vzero (mkVec 1 0 0) (mkVec 0 0 1) 0 = Some arc /\
    Arc3D.endPoint arc = mkVec 1 0 0 /\
    Arc3D.endNormal arc = Arc3D.startNormal arc /\
    forall count p, In p (Arc3D.interpolate arc count) -> p = mkVec 1 0 0.
Proof.
  exact (Arc3D_zero_sweep vzero (mkVec 1 0 0) (mkVec 0 0 1)
           quarter_start_ne_center quarter_within_tolerance vec_001_nonzero).
Defined.

(** X21: whether a start direction that is not orthogonal to the radius
    vector is accepted depends on its length alone: the assertion compares
    the dot product of the direction as given, not normalized, with 1e-6,
    so that some positive multiple of the direction is rejected and some
    positive multiple is accepted. *)
Theorem Arc3D_tolerance_depends_on_length (c s d : vec3) (th : R) :
  s <> c -> dot d (vsub s c) <> 0 ->
  (exists k, 0 < k /\ Arc3D.init c s (vscale k d) th = None) /\
  (exists k arc, 0 < k /\ Arc3D.init c s (vscale k d) th = Some arc).
Proof.
  intros Hsc Hnz.
  assert (Hr : 0 < norm (vsub s c)) by (apply norm_pos_neq; exact Hsc).
  pose proof (Rabs_pos_lt _ Hnz) as HD.
  set (D := Rabs (dot d (vsub s c))) in *.
  assert (Hdot : forall k, 0 < k ->
            Rabs (dot (vscale k d) (vsub s c)) = k * D).
  { intros k Hk.
    replace (dot (vscale k d) (vsub s c)) with (k * dot d (vsub s c))
      by (unfold dot; simpl; ring).
    rewrite Rabs_mult, (Rabs_right k) by lra. reflexivity. }
  assert (Hinv : 0 < / D) by (apply Rinv_0_lt_compat; exact HD).
  split.
  - exists (/ D). split; [exact Hinv|].
    apply Arc3D_init_none. right. rewrite (Hdot _ Hinv).
    rewrite Rinv_l by lra. lra.
  - assert (Hk : 0 < / D / 10000000) by (unfold Rdiv; nra).
    destruct (Arc3D_init_some c s (vscale (/ D / 10000000) d) th Hr) as [arc Ha].
    + rewrite (Hdot _ Hk).
      replace (/ D / 10000000 * D) with (/ D * D / 10000000)
        by (unfold Rdiv; ring).
      rewrite Rinv_l by lra. lra.
    + exists (/ D / 10000000), arc. split; [exact Hk | exact Ha].
Qed.

Lemma tilted_dot_nonzero :
  dot (mkVec 1 0 1) (vsub (mkVec 1 0 0) vzero) <> 0.
Proof.
  replace (dot (mkVec 1 0 1) (vsub (mkVec 1 0 0) vzero)) with 1
    by (unfold dot; simpl; ring).
  lra.
Qed.

Lemma Arc3D_tolerance_depends_on_length_witness :
  (exists k, 0 < k /\
     Arc3D.init vzero (mkVec 1 0 0) (vscale k (mkVec 1 0 1)) (PI / 2) = None) /\
  (exists k arc, 0 < k /\
     Arc3D.init vzero (mkVec 1 0 0) (vscale k (mkVec 1 0 1)) (PI / 2)
     = Some arc).
Proof.
  exact (Arc3D_tolerance_depends_on_length vzero (mkVec 1 0 0) (mkVec 1 0 1)
           (PI / 2) quarter_start_ne_center tilted_dot_nonzero).
Defined.

(** X22: the small counts: for a constructed arc, [interpolate 0] is empty
    and [interpolate 1] is the start point alone. *)
Theorem Arc3D_interpolate_small_counts (c s d : vec3) (th : R) :
  s <> c -> Rabs (dot d (vsub s c)) < 1 / 1000000 -> d <> vzero ->
  exists arc,
    Arc3D.init c s d th = Some arc /\
    Arc3D.interpolate arc 0 = [] /\
    Arc3D.interpolate arc 1 = [s].
Proof.
  intros Hsc Htol Hd.
  assert (Hr : 0 < norm (vsub s c)) by (apply norm_pos_neq; exact Hsc).
  destruct (Arc3D_init_some c s d th Hr Htol) as [arc Ha].
  exists arc. split; [exact Ha|]. split; [reflexivity|].
  unfold Arc3D.interpolate. simpl.
  rewrite (Arc3D_point_formula c s d th arc 0 Ha), cos_0, sin_0.
  f_equal. apply vec3_eq; simpl; ring.
Qed.

Lemma Arc3D_interpolate_small_counts_witness :
  exists arc,
    Arc3D.init vzero (mkVec 1 0 0) (mkVec 0 0 1) (PI / 2) = Some arc /\
    Arc3D.interpolate arc 0 = [] /\
    Arc3D.interpolate arc 1 = [mkVec 1 0 0].
Proof.
  exact (Arc3D_interpolate_small_counts vzero (mkVec 1 0 0) (mkVec 0 0 1)
           (PI / 2) quarter_start_ne_center quarter_within_tolerance
           vec_001_nonzero).
Defined.

(** ** Wrapped sweeps, reflected and translated curves *)


Lemma sin_cos_wrapAngle (x : R) :
  sin (wrapAngle x) = sin x /\ cos (wrapAngle x) = cos x.
Proof.
  destruct (wrapAngle_shift x) as [k Hk]. rewrite Hk.
  replace (x - 2 * PI * IZR k) with (x + 2 * PI * IZR (- k))
    by (rewrite opp_IZR; ring).
  apply sin_cos_period_Z.
Qed.

(** X24: where an arc ends depends on its sweep modulo a full turn only:
    with a nonzero start direction orthogonal to the radius vector, the arc
    of sweep [wrapAngle theta] has the derived end point, end tangent and
    end normal of the arc of sweep [theta]. *)
Theorem Arc3D_wrapped_sweep (c s d : vec3) (th : R) :
  s <> c -> d <> vzero -> dot d (vsub s c) = 0 ->
  exists arc wrapped,
    Arc3D.init c s d th = Some arc /\
    Arc3D.init c s d (wrapAngle th) = Some wrapped /\
    Arc3D.endPoint wrapped = Arc3D.endPoint arc /\
    Arc3D.endTangent wrapped = Arc3D.endTangent arc /\
    Arc3D.endNormal wrapped = Arc3D.endNormal arc.
Proof.
  intros Hsc Hd Ho.
  destruct (exact_constructed c s d Hsc Ho th) as [arc Ha].
  destruct (exact_constructed c s d Hsc Ho (wrapAngle th)) as [wrapped Hw].
  exists arc, wrapped. split; [exact Ha|]. split; [exact Hw|].
  destruct (exact_fields c s d Hsc Hd Ho th arc Ha)
    as (_ & _ & _ & _ & Ep & EN & ET).
  destruct (exact_fields c s d Hsc Hd Ho (wrapAngle th) wrapped Hw)
    as (_ & _ & _ & _ & Ep' & EN' & ET').
  destruct (sin_cos_wrapAngle th) as [Es Ec].
  rewrite Ep', EN', ET', Ep, EN, ET, Es, Ec. repeat split; reflexivity.
Qed.

Lemma Arc3D_wrapped_sweep_witness :
  exists arc wrapped,
    Arc3D.init vzero (mkVec 1 0 0) (mkVec 0 0 1) (- (PI / 2)) = Some arc /\
    Arc3D.init vzero (mkVec 1 0 0) (mkVec 0 0 1) (wrapAngle (- (PI / 2)))
    = Some wrapped /\
    Arc3D.endPoint wrapped = Arc3D.endPoint arc /\
    Arc3D.endTangent wrapped = Arc3D.endTangent arc /\
    Arc3D.endNormal wrapped = Arc3D.endNormal arc.
Proof.
  exact (Arc3D_wrapped_sweep vzero (mkVec 1 0 0) (mkVec 0 0 1) (- (PI / 2))
           quarter_start_ne_center vec_001_nonzero quarter_dot_zero).
Defined.

(** X25: a circle of radius [- r] is the circle of radius [r] seen through
    its center: for every [count], its samples are the samples of the circle
    of radius [r], each reflected through the center ([2 * c - p]).  This
    holds whatever [null_space] returns. *)
Theorem Circle3D_negated_radius
    (ns : vec3 -> vec3 -> list vec3)
    (radius : R) (center normal : vec3) (count : nat) :
  norm normal <> 0 ->
  exists circ opp,
    Circle3D.init radius center normal = Some circ /\
    Circle3D.init (- radius) center normal = Some opp /\
    Circle3D.interpolate ns opp count
    = map (fun p => vsub (vscale 2 center) p)
          (Circle3D.interpolate ns circ count).
Proof.
  intros NZ. do 2 eexists.
  split; [apply Circle3D_init_some; exact NZ|].
  split; [apply Circle3D_init_some; exact NZ|].
  unfold Circle3D.interpolate. rewrite map_map. apply map_ext. intros a.
  cbn [Circle3D.n Circle3D.r Circle3D.c Circle3D.point].
  apply vec3_eq; simpl; ring.
Qed.

Lemma Circle3D_negated_radius_witness :
  exists circ opp,
    Circle3D.init 2 vzero (mkVec 0 0 2) = Some circ /\
    Circle3D.init (- 2) vzero (mkVec 0 0 2) = Some opp /\
    Circle3D.interpolate null_space_instance opp 4
    = map (fun p => vsub (vscale 2 vzero) p)
          (Circle3D.interpolate null_space_instance circ 4).
Proof.
  exact (Circle3D_negated_radius null_space_instance 2 vzero (mkVec 0 0 2) 4
           norm_002).
Defined.

(** X26: the samples of a circle move with its center: translating the
    center by [v] translates every sample by [v]. *)
Theorem Circle3D_translated
    (ns : vec3 -> vec3 -> list vec3)
    (radius : R) (center normal v : vec3) (count : nat) :
  norm normal <> 0 ->
  exists circ moved,
    Circle3D.init radius center normal = Some circ /\
    Circle3D.init radius (vadd center v) normal = Some moved /\
    Circle3D.interpolate ns moved count
    = map (fun p => vadd p v) (Circle3D.interpolate ns circ count).
Proof.
  intros NZ. do 2 eexists.
  split; [apply Circle3D_init_some; exact NZ|].
  split; [apply Circle3D_init_some; exact NZ|].
  unfold Circle3D.interpolate. rewrite map_map. apply map_ext. intros a.
  cbn [Circle3D.n Circle3D.r Circle3D.c Circle3D.point].
  apply vec3_eq; simpl; ring.
Qed.

Lemma Circle3D_translated_witness :
  exists circ moved,
    Circle3D.init 2 vzero (mkVec 0 0 2) = Some circ /\
    Circle3D.init 2 (vadd vzero (mkVec 1 2 3)) (mkVec 0 0 2) = Some moved /\
    Circle3D.interpolate null_space_instance moved 4
    = map (fun p => vadd p (mkVec 1 2 3))
          (Circle3D.interpolate null_space_instance circ 4).
Proof.
  exact (Circle3D_translated null_space_instance 2 vzero (mkVec 0 0 2)
           (mkVec 1 2 3) 4 norm_002).
Defined.

Lemma vsub_translated (s c v : vec3) :
  vsub (vadd s v) (vadd c v) = vsub s c.
Proof. apply vec3_eq; simpl; ring. Qed.

(** X27: an arc moves with its center and start point: translating both by
    [v] gives an arc with the same radius, binormal, end tangent and end
    normal, whose derived end point and samples, for every [count], are
    those of the first arc translated by [v]. *)
Theorem Arc3D_translated (c s d v : vec3) (th : R) :
  s <> c -> Rabs (dot d (vsub s c)) < 1 / 1000000 -> d <> vzero ->
  exists arc moved,
    Arc3D.init c s d th = Some arc /\
    Arc3D.init (vadd c v) (vadd s v) d th = Some moved /\
    Arc3D.r moved = Arc3D.r arc /\
    Arc3D.binormal moved = Arc3D.binormal arc /\
    Arc3D.endTangent moved = Arc3D.endTangent arc /\
    Arc3D.endNormal moved = Arc3D.endNormal arc /\
    Arc3D.endPoint moved = vadd (Arc3D.endPoint arc) v /\
    forall count,
      Arc3D.interpolate moved count
      = map (fun p => vadd p v) (Arc3D.interpolate arc count).
Proof.
  intros Hsc Htol Hd.
  assert (Hr : 0 < norm (vsub s c)) by (apply norm_pos_neq; exact Hsc).
  destruct (Arc3D_init_some c s d th Hr Htol) as [arc Ha].
  destruct (Arc3D_init_some (vadd c v) (vadd s v) d th) as [moved Hm];
    [rewrite vsub_translated; assumption
    |rewrite vsub_translated; assumption|].
  exists arc, moved. split; [exact Ha|]. split; [exact Hm|].
  pose proof (Arc3D_init_fields c s d th arc Ha) as F. cbv zeta in F.
  destruct F as (_ & _ & Ec & _ & Eth & Er & En & Eb & _).
  pose proof (Arc3D_init_fields _ _ d th moved Hm) as F'. cbv zeta in F'.
  rewrite !vsub_translated in F'.
  destruct F' as (_ & _ & Ec' & _ & Eth' & Er' & En' & Eb' & _).
  destruct (Arc3D_init_fields_end c s d th arc Ha)
    as (_ & _ & Ecte & Eep & Een & Eet).
  destruct (Arc3D_init_fields_end _ _ d th moved Hm)
    as (_ & _ & Ecte' & Eep' & Een' & Eet').
  rewrite !vsub_translated in Ecte', Een'.
  assert (B : Arc3D.binormal moved = Arc3D.binormal arc)
    by (rewrite Eb', Eb; reflexivity).
  assert (Cte : Arc3D.centerToEnd moved = Arc3D.centerToEnd arc)
    by (rewrite Ecte', Ecte, B; reflexivity).
  assert (EN : Arc3D.endNormal moved = Arc3D.endNormal arc)
    by (rewrite Een', Een, Cte; reflexivity).
  split; [rewrite Er', Er; reflexivity|].
  split; [exact B|].
  split; [rewrite Eet', Eet, EN, B; reflexivity|].
  split; [exact EN|].
  split; [rewrite Eep', Eep, Cte; apply vec3_eq; simpl; ring|].
  intros count. unfold Arc3D.interpolate.
  rewrite Eth', Eth, map_map. apply map_ext. intros a.
  unfold Arc3D.point. rewrite Ec', Ec, Er', Er, En', En, B.
  apply vec3_eq; simpl; ring.
Qed.

Lemma Arc3D_translated_witness :
  exists arc moved,
    Arc3D.init vzero (mkVec 1 0 0) (mkVec 0 0 1) (PI / 2) = Some arc /\
    Arc3D.init (vadd vzero (mkVec 1 2 3)) (vadd (mkVec 1 0 0) (mkVec 1 2 3))
      (mkVec 0 0 1) (PI / 2) = Some moved /\
    Arc3D.r moved = Arc3D.r arc /\
    Arc3D.binormal moved = Arc3D.binormal arc /\
    Arc3D.endTangent moved = Arc3D.endTangent arc /\
    Arc3D.endNormal moved = Arc3D.endNormal arc /\
    Arc3D.endPoint moved = vadd (Arc3D.endPoint arc) (mkVec 1 2 3) /\
    forall count,
      Arc3D.interpolate moved count
      = map (fun p => vadd p (mkVec 1 2 3)) (Arc3D.interpolate arc count).
Proof.
  exact (Arc3D_translated vzero (mkVec 1 0 0) (mkVec 0 0 1) (mkVec 1 2 3)
           (PI / 2) quarter_start_ne_center quarter_within_tolerance
           vec_001_nonzero).
Defined.

(** * Binary64: where rounding decides *)

(** ** Values *)

Lemma Q2R_inject_Z (z : Z) : Q2R (inject_Z z) = IZR z.
Proof. unfold Q2R, inject_Z. simpl. field. Qed.

Lemma B64_to_R_mant (x : B64.t) :
  B64.to_R x = IZR (B64.mant x) * Q2R (2 ^ B64.expo x).
Proof. unfold B64.to_R, B64.to_Q. rewrite Q2R_mult, Q2R_inject_Z. reflexivity. Qed.

Lemma Q2R_two_power_pos (e : Z) : 0 < Q2R (2 ^ e).
Proof.
  replace 0 with (Q2R 0) by (unfold Q2R; simpl; field).
  apply Qlt_Rlt. apply Qpower_0_lt. reflexivity.
Qed.

Lemma B64_to_R_zero (x : B64.t) : B64.mant x = 0%Z -> B64.to_R x = 0.
Proof. intros H. rewrite B64_to_R_mant, H. ring. Qed.

Lemma B64_to_R_neg (x : B64.t) : (B64.mant x < 0)%Z -> B64.to_R x < 0.
Proof.
  intros H. rewrite B64_to_R_mant.
  pose proof (Q2R_two_power_pos (B64.expo x)) as Hp.
  apply IZR_lt in H. nra.
Qed.

(** ** Zeros stay zeros *)

Lemma B64_round_zero (e : Z) (r : B64.t) :
  B64.round 0 e = Some r -> B64.mant r = 0%Z.
Proof.
  unfold B64.round.
  change (B64.digits 0) with 0%Z.
  set (target := Z.max (e + 0 - 53) (-1074)).
  change (B64.rne_shift 0 (target - e)) with 0%Z.
  destruct (e <? target)%Z;
    match goal with |- (if ?c then _ else _) = _ -> _ => destruct c end;
    intros H; try discriminate; injection H as <-; reflexivity.
Qed.

Lemma B64_mul_zero_r (x y r : B64.t) :
  B64.mul x y = Some r -> B64.mant y = 0%Z -> B64.mant r = 0%Z.
Proof.
  unfold B64.mul. intros H Hy. rewrite Hy, Z.mul_0_r in H.
  apply B64_round_zero in H. exact H.
Qed.

Lemma B64_add_zero (x y r : B64.t) :
  B64.add x y = Some r -> B64.mant x = 0%Z -> B64.mant y = 0%Z ->
  B64.mant r = 0%Z.
Proof.
  unfold B64.add, B64.aligned. intros H Hx Hy.
  rewrite Hx, Hy, !Z.mul_0_l, Z.add_0_l in H.
  apply B64_round_zero in H. exact H.
Qed.

(** The dot product with the zero vector is zero, whenever it is finite. *)
Lemma dot64_vzero64 (c : vec64) (y : B64.t) :
  dot64 c vzero64 = Some y -> B64.mant y = 0%Z.
Proof.
  unfold dot64, bind. cbn [x64 y64 z64 vzero64].
  destruct (B64.mul (x64 c) B64.zero) as [p0|] eqn:E0; [|discriminate].
  destruct (B64.mul (y64 c) B64.zero) as [p1|] eqn:E1; [|discriminate].
  destruct (B64.mul (z64 c) B64.zero) as [p2|] eqn:E2; [|discriminate].
  destruct (B64.add p0 p1) as [s1|] eqn:E3; [|discriminate].
  intros E4.
  apply B64_mul_zero_r in E0, E1, E2; try reflexivity.
  apply (B64_add_zero s1 p2 y E4); [|exact E2].
  apply (B64_add_zero p0 p1 s1 E3); assumption.
Qed.

(** The norm of the zero vector is zero: the guard [norm(n) > 0] is false. *)
Lemma norm64_vzero64 :
  exists r, norm64 vzero64 = Some r /\ B64.ltb B64.zero r = false.
Proof. eexists. split; [vm_compute; reflexivity | reflexivity]. Qed.

(** ** [signedAngle] with the zero vector as axis *)

Lemma signedAngle64_args_zero_axis (a b : vec64) (y x : B64.t) :
  signedAngle64_args a b vzero64 = Some (y, x) ->
  B64.mant y = 0%Z /\
  exists a' b',
    normalize64 a = Some a' /\ normalize64 b = Some b' /\
    dot64 a' b' = Some x.
Proof.
  unfold signedAngle64_args.
  destruct (normalize64 a) as [a'|]; [|discriminate].
  destruct (normalize64 b) as [b'|]; [|discriminate].
  cbn [bind].
  destruct norm64_vzero64 as (r & Hn & Hl). rewrite Hn. cbn [bind].
  rewrite Hl. cbn [bind].
  destruct (cross64 a' b') as [c|]; [|discriminate]. cbn [bind].
  destruct (dot64 c vzero64) as [y'|] eqn:Ey; [|discriminate]. cbn [bind].
  destruct (dot64 a' b') as [x'|] eqn:Ex; [|discriminate]. cbn [bind].
  intros H. injection H as <- <-.
  split; [exact (dot64_vzero64 c y' Ey)|].
  exists a', b'. repeat split. exact Ex.
Qed.




(** ** [unitNormalToBoth] on nearly colinear vectors *)

(** C1 does not hold on the code: [u = (0.1, 0.7, 0.3)] and
    [v = (0.3, 2.1, 0.9)], colinear as decimals, have in binary64 the cross
    product [(0, - 2^-56, 2^-55)], which is rounding error; its norm is
    positive, the degenerate branch is not taken, and the result, about
    (0, -0.447, 0.894), whatever [null_space] would return, is far from
    orthogonal to [v] and to [u]: the dot products are about -0.134 and
    -0.045. *)
Theorem unitNormalToBoth64_nearly_colinear
    (null_space : vec64 -> vec64 -> list vec64) :
  let u := mkVec64 (B64.nearest 1 10) (B64.nearest 7 10) (B64.nearest 3 10) in
  let v := mkVec64 (B64.nearest 3 10) (B64.nearest 21 10) (B64.nearest 9 10) in
  cross64 u v
  = Some (mkVec64 (B64.mk 0 (-53)) (B64.mk (-1) (-56)) (B64.mk 1 (-55))) /\
  exists w,
    unitNormalToBoth64 null_space u v = Some w /\
    (B64.to_Q (x64 w) == 0)%Q /\
    (- (448 # 1000) < B64.to_Q (y64 w) < - (447 # 1000))%Q /\
    (894 # 1000 < B64.to_Q (z64 w) < 895 # 1000)%Q /\
    (dotQ w v < - (134 # 1000))%Q /\
    (dotQ w u < - (44 # 1000))%Q.
Proof.
  intros u v. split; [vm_compute; reflexivity|].
  exists (mkVec64 (B64.mk 0 (-56)) (B64.mk (-8056283928194521) (-54))
                  (B64.mk 8056283928194521 (-53))).
  split; [vm_compute; reflexivity|].
  repeat split; vm_compute; reflexivity.
Qed.

(** ** [wrapAngle] just below zero *)

(** C7 does not hold on the code: for [x = -1e-20] the remainder of [fmod]
    is [x] itself, negative, and the sum [x + 2*np.pi] rounds to [2*np.pi]:
    [wrapAngle x] is the divisor, outside of [0, 2pi).  And [x + 2*np.pi] is
    [2*np.pi] in binary64, at which [wrapAngle] is 0: the values at [x] and
    at [x] plus one turn differ by a full turn. *)
Theorem wrapAngle64_tiny_negative :
  let x := B64.nearest (-1) 100000000000000000000 in
  exists two_pi r shifted r',
    B64.mul two64 pi64 = Some two_pi /\
    (B64.to_Q x < 0)%Q /\
    wrapAngle64 x = Some r /\
    (B64.to_Q r == B64.to_Q two_pi)%Q /\
    B64.add x two_pi = Some shifted /\
    wrapAngle64 shifted = Some r' /\
    (B64.to_Q r' == 0)%Q.
Proof.
  intros x. do 4 eexists.
  split; [vm_compute; reflexivity|].
  split; [vm_compute; reflexivity|].
  split; [vm_compute; reflexivity|].
  split; [vm_compute; reflexivity|].
  split; [vm_compute; reflexivity|].
  split; [vm_compute; reflexivity|].
  vm_compute; reflexivity.
Qed.
